(** * ghost-bulk-publisher: a shallow embedding of [bulk_uploader.js]

    The script walks [<script dir>/src], takes every first-level
    sub-directory as a tag, converts every [*.md] entry of such a directory
    with pandoc and submits the result to the Ghost Admin API.

    The embedding keeps the script's shape: JavaScript strings are
    sequences of UTF-16 code units, the three asynchronous functions are
    programs over an interface of calls to the outside world (file system,
    child process, Admin API, console), [try]/[catch] is an operator on such
    programs, and a run against a world yields the outcome of the promise,
    the final state of the world and the trace of calls with their
    replies. *)

From Stdlib Require Import ZArith NArith Ascii String List Bool Lia.
From stdpp Require Import base option list gmap strings.

Local Open Scope Z_scope.

(** ** JavaScript strings *)

(** A JavaScript string is a finite sequence of UTF-16 code units. *)
Abbreviation jsstring := (list N).

(** The string written by an ASCII literal of the source. *)
Definition js (s : string) : jsstring :=
  List.map N_of_ascii (list_ascii_of_string s).

(** The double quote, which the source writes inside template literals. *)
Definition dquote : jsstring := [34%N].

(** [a === b] on strings. *)
Definition jsstring_eqb (a b : jsstring) : bool := bool_decide (a = b).

(** [s.slice(a, b)] for [0 <= a] and [0 <= b], the only use the modelled
    code makes of it. *)
Definition slice (s : jsstring) (a b : Z) : jsstring :=
  take (Z.to_nat b - Z.to_nat a)%nat (drop (Z.to_nat a) s).

(** [s.endsWith(suffix)]: the last [suffix.length] code units of [s] are
    those of [suffix], compared code unit by code unit. *)
Definition endsWith (s suffix : jsstring) : bool :=
  (length suffix <=? length s)%nat
  && jsstring_eqb (drop (length s - length suffix)%nat s) suffix.

(** ECMAScript WhiteSpace and LineTerminator code units, the ones that
    [String.prototype.trim] removes. *)
Definition is_whitespace (c : N) : bool :=
  match c with
  | 9 | 10 | 11 | 12 | 13 | 32 | 160
  | 5760 | 8192 | 8193 | 8194 | 8195 | 8196 | 8197 | 8198 | 8199 | 8200
  | 8201 | 8202 | 8232 | 8233 | 8239 | 8287 | 12288 | 65279 => true
  | _ => false
  end%N.

Fixpoint trimStart (s : jsstring) : jsstring :=
  match s with
  | c :: s' => if is_whitespace c then trimStart s' else s
  | [] => []
  end.

Definition trimEnd (s : jsstring) : jsstring := rev (trimStart (rev s)).

(** [s.trim()]. *)
Definition trim (s : jsstring) : jsstring := trimEnd (trimStart s).

(** JavaScript truthiness of a value that is a string, [null] or
    [undefined]: only a non-empty string is truthy. *)
Definition truthy (v : option jsstring) : bool :=
  match v with
  | Some (_ :: _) => true
  | _ => false
  end.

(** [v || d] for such a value. *)
Definition or_else (v : option jsstring) (d : jsstring) : jsstring :=
  match v with
  | Some (c :: s) => c :: s
  | _ => d
  end.

(** ** Node's [path] module, POSIX flavour *)

Module Path.

Definition CHAR_FORWARD_SLASH : N := 47.
Definition CHAR_DOT : N := 46.

Definition sep : jsstring := [CHAR_FORWARD_SLASH].

Definition isAbsolute (p : jsstring) : bool :=
  match p with
  | c :: _ => N.eqb c CHAR_FORWARD_SLASH
  | [] => false
  end.

(** Splitting at every separator: [split "/a//b" = [""; "a"; ""; "b"]]. *)
Fixpoint split (p : jsstring) : list jsstring :=
  match p with
  | [] => [[]]
  | c :: p' =>
      if N.eqb c CHAR_FORWARD_SLASH then [] :: split p'
      else match split p' with
           | seg :: segs => (c :: seg) :: segs
           | [] => [[c]]
           end
  end.

Fixpoint join_with (segs : list jsstring) : jsstring :=
  match segs with
  | [] => []
  | [seg] => seg
  | seg :: segs' => seg ++ sep ++ join_with segs'
  end.

(** One step of [normalizeString]: [acc] holds the segments kept so far,
    last one first.  Empty and [.] segments are dropped, [..] removes the
    segment before it, and is kept only where the path may climb above its
    start. *)
Definition normalize_step (allowAboveRoot : bool)
    (acc : list jsstring) (seg : jsstring) : list jsstring :=
  if jsstring_eqb seg [] || jsstring_eqb seg [CHAR_DOT] then acc
  else if jsstring_eqb seg [CHAR_DOT; CHAR_DOT] then
    match acc with
    | top :: acc' =>
        if jsstring_eqb top [CHAR_DOT; CHAR_DOT] then seg :: acc else acc'
    | [] => if allowAboveRoot then [seg] else []
    end
  else seg :: acc.

Definition normalizeString (p : jsstring) (allowAboveRoot : bool) : jsstring :=
  join_with (rev (fold_left (normalize_step allowAboveRoot) (split p) [])).

(** [path.normalize]. *)
Definition normalize (p : jsstring) : jsstring :=
  match p with
  | [] => [CHAR_DOT]
  | _ =>
      let absolute := isAbsolute p in
      let trailingSeparator := endsWith p sep in
      let q := normalizeString p (negb absolute) in
      match q with
      | [] =>
          if absolute then sep
          else if trailingSeparator then CHAR_DOT :: sep else [CHAR_DOT]
      | _ =>
          let q' := if trailingSeparator then q ++ sep else q in
          if absolute then sep ++ q' else q'
      end
  end.

(** [path.join(...args)]: the non-empty arguments joined by the separator,
    then normalised. *)
Definition join (args : list jsstring) : jsstring :=
  match List.filter (fun a => negb (jsstring_eqb a [])) args with
  | [] => [CHAR_DOT]
  | parts => normalize (join_with parts)
  end.

(** The right-to-left loop of [path.resolve]: arguments are prepended until
    an absolute one has been taken. *)
Fixpoint resolve_args (rargs : list jsstring) (resolvedPath : jsstring)
    : jsstring * bool :=
  match rargs with
  | [] => (resolvedPath, false)
  | p :: rest =>
      match p with
      | [] => resolve_args rest resolvedPath
      | _ =>
          let resolvedPath' := p ++ sep ++ resolvedPath in
          if isAbsolute p then (resolvedPath', true)
          else resolve_args rest resolvedPath'
      end
  end.

(** [path.resolve(...args)] in a process whose working directory is [cwd]. *)
Definition resolve (cwd : jsstring) (args : list jsstring) : jsstring :=
  let '(resolvedPath, resolvedAbsolute) := resolve_args (rev (cwd :: args)) [] in
  let q := normalizeString resolvedPath (negb resolvedAbsolute) in
  if resolvedAbsolute then sep ++ q
  else match q with [] => [CHAR_DOT] | _ => q end.

(** The object returned by [path.parse]. *)
Record ParsedPath := {
  root : jsstring;
  dir : jsstring;
  base : jsstring;
  ext : jsstring;
  name : jsstring
}.

(** The local variables of the scanning loop of [path.parse]. *)
Record ScanState := {
  startDot : Z;
  startPart : Z;
  end_ : Z;
  matchedSlash : bool;
  preDotState : Z
}.

Definition scan_init : ScanState :=
  {| startDot := -1; startPart := 0; end_ := -1;
     matchedSlash := true; preDotState := 0 |}.

(** The updates one code unit other than a separator makes, at index [i]. *)
Definition scan_char (code : N) (i : Z) (st : ScanState) : ScanState :=
  let st1 :=
    if end_ st =? -1 then
      {| startDot := startDot st; startPart := startPart st; end_ := i + 1;
         matchedSlash := false; preDotState := preDotState st |}
    else st in
  if N.eqb code CHAR_DOT then
    if startDot st1 =? -1 then
      {| startDot := i; startPart := startPart st1; end_ := end_ st1;
         matchedSlash := matchedSlash st1; preDotState := preDotState st1 |}
    else if negb (preDotState st1 =? 1) then
      {| startDot := startDot st1; startPart := startPart st1; end_ := end_ st1;
         matchedSlash := matchedSlash st1; preDotState := 1 |}
    else st1
  else if negb (startDot st1 =? -1) then
    {| startDot := startDot st1; startPart := startPart st1; end_ := end_ st1;
       matchedSlash := matchedSlash st1; preDotState := -1 |}
  else st1.

(** The loop [for (; i >= start; --i)] of [path.parse].  [pending] holds the
    code units at the indices [start .. i], the one at index [i] first, so
    the index of its head is [start + length of its tail]. *)
Fixpoint scan (start : Z) (pending : jsstring) (st : ScanState) : ScanState :=
  match pending with
  | [] => st
  | code :: pending' =>
      let i := start + Z.of_nat (length pending') in
      if N.eqb code CHAR_FORWARD_SLASH then
        if negb (matchedSlash st) then
          {| startDot := startDot st; startPart := i + 1; end_ := end_ st;
             matchedSlash := matchedSlash st; preDotState := preDotState st |}
        else scan start pending' st
      else scan start pending' (scan_char code i st)
  end.

(** [path.parse(p)]. *)
Definition parse (p : jsstring) : ParsedPath :=
  match p with
  | [] => {| root := []; dir := []; base := []; ext := []; name := [] |}
  | _ =>
      let absolute := isAbsolute p in
      let start := if absolute then 1 else 0 in
      let st := scan start (rev (drop (Z.to_nat start) p)) scan_init in
      let ret_root := if absolute then sep else [] in
      let ret_dir :=
        if 0 <? startPart st then slice p 0 (startPart st - 1)
        else if absolute then sep else [] in
      if negb (end_ st =? -1) then
        let start' :=
          if (startPart st =? 0) && absolute then 1 else startPart st in
        if (startDot st =? -1)
           || (preDotState st =? 0)
           || ((preDotState st =? 1)
               && (startDot st =? end_ st - 1)
               && (startDot st =? startPart st + 1))
        then
          {| root := ret_root; dir := ret_dir;
             base := slice p start' (end_ st); ext := [];
             name := slice p start' (end_ st) |}
        else
          {| root := ret_root; dir := ret_dir;
             base := slice p start' (end_ st);
             ext := slice p (startDot st) (end_ st);
             name := slice p start' (startDot st) |}
      else
        {| root := ret_root; dir := ret_dir; base := []; ext := []; name := [] |}
  end.

End Path.

(** ** Values exchanged with the outside world *)

(** A thrown [Error]; the script only ever reads its [message]. *)
Record JsError := { message : jsstring }.

(** An [fs.Dirent], as [fs.readdir] returns with [withFileTypes]. *)
Record Dirent := { dirent_name : jsstring; dirent_isDirectory : bool }.

(** The object literal [{ name: tag }]. *)
Record Tag := { tag_name : jsstring }.

(** The first argument of [api.posts.add]. *)
Record Post := {
  title : jsstring;
  html : jsstring;
  tags : list Tag;
  status : jsstring
}.

(** The second argument of [api.posts.add]. *)
Record Options := { source : jsstring }.

(** What the Admin API resolves with; the script only serialises it. *)
Record Response := { json : jsstring }.

Definition JSON_stringify (r : Response) : jsstring := json r.

(** The methods [api.posts] offers. *)
Inductive PostsMethod := posts_browse | posts_read | posts_add | posts_edit | posts_delete.

(** An argument of [console.log] or [console.error]: a string, a string
    that may be [undefined], or an array of strings. *)
Inductive LogArg :=
| text (s : jsstring)
| value (v : option jsstring)
| array (l : list jsstring).

(** ** Calls to the outside world *)

Inductive Call :=
| fs_readdir_withFileTypes (p : jsstring)
| fs_readdir (p : jsstring)
| execSync (command : jsstring)
| api_posts (m : PostsMethod) (data : Post) (options : Options)
| console_log (args : list LogArg)
| console_error (args : list LogArg).

(** What a call comes back with: a thrown error (a rejected promise) or a
    value; the console never fails. *)
Definition Reply (c : Call) : Type :=
  match c with
  | fs_readdir_withFileTypes _ => JsError + list Dirent
  | fs_readdir _ => JsError + list jsstring
  | execSync _ => JsError + jsstring
  | api_posts _ _ _ => JsError + Response
  | console_log _ => unit
  | console_error _ => unit
  end.

(** A call together with its reply. *)
Inductive Event := Ev (c : Call) (r : Reply c).

(** ** Programs *)

(** An asynchronous function body: it returns, throws, or makes a call and
    goes on with the reply. *)
Inductive Prog (A : Type) : Type :=
| Ret (a : A)
| Throw (e : JsError)
| Do (c : Call) (k : Reply c -> Prog A).

Arguments Ret {A} a.
Arguments Throw {A} e.
Arguments Do {A} c k.

Fixpoint bind {A B} (m : Prog A) (f : A -> Prog B) : Prog B :=
  match m with
  | Ret a => f a
  | Throw e => Throw e
  | Do c k => Do c (fun r => bind (k r) f)
  end.

(** [try { m } catch (error) { h error }]. *)
Fixpoint try_catch {A} (m : Prog A) (h : JsError -> Prog A) : Prog A :=
  match m with
  | Ret a => Ret a
  | Throw e => h e
  | Do c k => Do c (fun r => try_catch (k r) h)
  end.

Declare Scope prog_scope.
Delimit Scope prog_scope with prog.
Notation "x <- m ;; k" := (bind m (fun x => k))
  (at level 100, m at next level, right associativity) : prog_scope.
Notation "m ;; k" := (bind m (fun _ => k))
  (at level 100, right associativity) : prog_scope.
Local Open Scope prog_scope.

(** A reply that is an error is thrown at the point of the call. *)
Definition settle {T} (r : JsError + T) : Prog T :=
  match r with
  | inl e => Throw e
  | inr v => Ret v
  end.

Definition log (args : list LogArg) : Prog unit := Do (console_log args) Ret.
Definition log_error (args : list LogArg) : Prog unit := Do (console_error args) Ret.

(** [for (const x of l) { body x }]. *)
Fixpoint for_of {T} (l : list T) (body : T -> Prog unit) : Prog unit :=
  match l with
  | [] => Ret tt
  | x :: l' => body x ;; for_of l' body
  end.

(** ** The script *)

(** What the script reads of its process: [__dirname], the working
    directory and [process.env] once [dotenv.config()] has run. *)
Record Process := {
  dirname : jsstring;
  cwd : jsstring;
  env : gmap string jsstring
}.

Section Script.

Variable process : Process.

Definition logEnvironmentVariables : Prog unit :=
  log [text (js "GHOST_API_URL:"); value (env process !! "GHOST_API_URL"%string)] ;;
  log [text (js "GHOST_ADMIN_API_KEY:");
       text (if truthy (env process !! "GHOST_ADMIN_API_KEY"%string)
             then js "Present" else js "Missing")].

(** The command line handed to [execSync]. *)
Definition pandoc_command (filePath : jsstring) : jsstring :=
  js "pandoc -f markdown -t html " ++ dquote ++ filePath ++ dquote.

Definition convertMarkdownToHtml (filePath : jsstring) : Prog (option jsstring) :=
  log [text (js "Converting file:"); text filePath] ;;
  try_catch
    (htmlContent <- Do (execSync (pandoc_command filePath)) settle ;;
     Ret (Some (trim htmlContent)))
    (fun error =>
       log_error [text (js "Error converting file to HTML: " ++ message error)] ;;
       Ret None).

Definition publishPost (title html tag status : jsstring) : Prog unit :=
  log [text (js "Publishing post: " ++ dquote ++ title ++ dquote
             ++ js " with status: " ++ dquote ++ status ++ dquote)] ;;
  try_catch
    (response <-
       Do (api_posts posts_add
             {| title := title; html := html;
                tags := [{| tag_name := tag |}]; status := status |}
             {| source := js "html" |}) settle ;;
     log [text (js "Post " ++ dquote ++ title ++ dquote
                ++ js " published successfully.");
          text (JSON_stringify response)])
    (fun error =>
       log_error [text (js "Failed to publish post " ++ dquote ++ title ++ dquote
                        ++ js ": " ++ message error)]).

(** [path.resolve(__dirname, 'src')]. *)
Definition srcDir : jsstring :=
  Path.resolve (cwd process) [dirname process; js "src"].

(** [process.env.POST_STATUS || 'draft']. *)
Definition post_status : jsstring :=
  or_else (env process !! "POST_STATUS"%string) (js "draft").

(** The body of the loop over [mdFiles]. *)
Definition publishPosts_file (tag tagPath status mdFile : jsstring) : Prog unit :=
  let title := Path.name (Path.parse mdFile) in
  let markdownPath := Path.join [tagPath; mdFile] in
  htmlData <- convertMarkdownToHtml markdownPath ;;
  if truthy htmlData then publishPost title (default [] htmlData) tag status
  else Ret tt.

(** The body of the loop over [directories]. *)
Definition publishPosts_dir (status : jsstring) (tagDir : Dirent) : Prog unit :=
  let tag := dirent_name tagDir in
  let tagPath := Path.join [srcDir; tag] in
  entries <- Do (fs_readdir tagPath) settle ;;
  let mdFiles := List.filter (fun file => endsWith file (js ".md")) entries in
  log [text (js "Markdown Files in " ++ tagPath ++ js ":"); array mdFiles] ;;
  for_of mdFiles (publishPosts_file tag tagPath status).

Definition publishPosts : Prog unit :=
  log [text (js "Source Directory:"); text srcDir] ;;
  let status := post_status in
  try_catch
    (tagDirs <- Do (fs_readdir_withFileTypes srcDir) settle ;;
     let directories := List.filter dirent_isDirectory tagDirs in
     log [text (js "Tag Directories:"); array (List.map dirent_name directories)] ;;
     for_of directories (publishPosts_dir status))
    (fun error =>
       log_error [text (js "Error processing data directory:"); text (message error)]).

(** The immediately invoked [async] function at the end of the script. *)
Definition main : Prog unit :=
  logEnvironmentVariables ;;
  publishPosts.

End Script.

(** ** Running a program against a world *)

(** A world answers every call from its current state and moves on. *)
Record World (S : Type) := { respond : forall c : Call, S -> Reply c * S }.
Arguments respond {S} w c s.

(** What a run leaves behind: the settled promise, the state of the world
    and the calls made, oldest first. *)
Record Ran (S A : Type) := {
  outcome : JsError + A;
  final : S;
  trace : list Event
}.
Arguments outcome {S A} r.
Arguments final {S A} r.
Arguments trace {S A} r.

Fixpoint run {S A} (w : World S) (m : Prog A) (s : S) : Ran S A :=
  match m with
  | Ret a => {| outcome := inr a; final := s; trace := [] |}
  | Throw e => {| outcome := inl e; final := s; trace := [] |}
  | Do c k =>
      let rs := respond w c s in
      let x := run w (k (fst rs)) (snd rs) in
      {| outcome := outcome x; final := final x; trace := Ev c (fst rs) :: trace x |}
  end.

(** Node exits with code 0 when the main promise is fulfilled and with
    code 1 on an unhandled rejection. *)
Definition exit_code {S A} (r : Ran S A) : Z :=
  match outcome r with
  | inr _ => 0
  | inl _ => 1
  end.

(** ** Reading a trace *)

Definition call_of (ev : Event) : Call :=
  match ev with Ev c _ => c end.

(** The requests made to the Admin API, in order. *)
Definition request_of (ev : Event) : option (PostsMethod * Post * Options) :=
  match call_of ev with
  | api_posts m data options => Some (m, data, options)
  | _ => None
  end.

Definition api_requests (t : list Event) : list (PostsMethod * Post * Options) :=
  omap request_of t.

(** The command lines run as child processes, in order. *)
Definition command_of (ev : Event) : option jsstring :=
  match call_of ev with
  | execSync command => Some command
  | _ => None
  end.

Definition conversions (t : list Event) : list jsstring := omap command_of t.

(** The directories listed, in order: with file types, and without. *)
Definition typed_listing_of (ev : Event) : option jsstring :=
  match call_of ev with
  | fs_readdir_withFileTypes p => Some p
  | _ => None
  end.

Definition plain_listing_of (ev : Event) : option jsstring :=
  match call_of ev with
  | fs_readdir p => Some p
  | _ => None
  end.

Definition scanned_roots (t : list Event) : list jsstring := omap typed_listing_of t.
Definition scanned_groups (t : list Event) : list jsstring := omap plain_listing_of t.

(** A listing that failed with [e]. *)
Definition listing_failed (e : JsError) (ev : Event) : Prop :=
  match ev with
  | Ev (fs_readdir_withFileTypes _) r => r = inl e
  | Ev (fs_readdir _) r => r = inl e
  | _ => False
  end.

(** The line [publishPost] writes to [console.error] for a request that
    failed with [e]. *)
Definition publish_failure_line (data : Post) (e : JsError) : Event :=
  Ev (console_error
        [text (js "Failed to publish post " ++ dquote ++ title data ++ dquote
               ++ js ": " ++ message e)]) tt.

(** Every failed request of the trace is followed at once by its line on
    [console.error]. *)
Fixpoint failures_logged (t : list Event) : Prop :=
  match t with
  | [] => True
  | ev :: t' =>
      match ev with
      | Ev (api_posts _ data _) (inl e) => head t' = Some (publish_failure_line data e)
      | _ => True
      end /\ failures_logged t'
  end.

(** ** A directory tree seen from outside *)

(** A layout fixes what the file system and the converter answer during a
    run; what the Admin API answers stays free. *)
Record Layout := {
  ls_withFileTypes : jsstring -> JsError + list Dirent;
  ls : jsstring -> JsError + list jsstring;
  pandoc : jsstring -> JsError + jsstring
}.

Definition serves {S} (w : World S) (L : Layout) : Prop :=
  (forall p s, fst (respond w (fs_readdir_withFileTypes p) s) = ls_withFileTypes L p)
  /\ (forall p s, fst (respond w (fs_readdir p) s) = ls L p)
  /\ (forall c s, fst (respond w (execSync c) s) = pandoc L c).

(** ** The pipeline as the specification words it *)

Module Spec.

(** A TagGroup: a sub-directory of the content root, with its Markdown
    files in directory-listing order. *)
Record TagGroup := {
  group_name : jsstring;
  group_files : list jsstring
}.

(** An Article, derived per file. *)
Record Article := {
  article_title : jsstring;
  sourcePath : jsstring;
  htmlBody : option jsstring;
  article_tag : jsstring;
  article_status : jsstring
}.

Section Pipeline.

Variable L : Layout.
Variable contentRoot : jsstring.
Variable run_status : jsstring.

Definition is_markdown (entry : jsstring) : bool := endsWith entry (js ".md").

(** The first-level sub-directories of the content root; none when the
    root cannot be listed. *)
Definition subdirectories : list jsstring :=
  match ls_withFileTypes L contentRoot with
  | inl _ => []
  | inr entries => List.map dirent_name (List.filter dirent_isDirectory entries)
  end.

(** Directory Scanner: one TagGroup per sub-directory, until one cannot be
    listed, which ends the run. *)
Fixpoint scan_groups (dirs : list jsstring) : list TagGroup :=
  match dirs with
  | [] => []
  | d :: dirs' =>
      match ls L (Path.join [contentRoot; d]) with
      | inl _ => []
      | inr entries =>
          {| group_name := d; group_files := List.filter is_markdown entries |}
          :: scan_groups dirs'
      end
  end.

Definition scanner : list TagGroup := scan_groups subdirectories.

(** The sub-directories the Scanner tries to list: all up to and including
    the first unreadable one. *)
Fixpoint listed (dirs : list jsstring) : list jsstring :=
  match dirs with
  | [] => []
  | d :: dirs' =>
      match ls L (Path.join [contentRoot; d]) with
      | inl _ => [d]
      | inr _ => d :: listed dirs'
      end
  end.

(** Markdown-to-HTML Converter: the converter's standard output, stripped,
    or no content when the converter fails. *)
Definition convert (path : jsstring) : option jsstring :=
  match pandoc L (pandoc_command path) with
  | inl _ => None
  | inr stdout => Some (trim stdout)
  end.

Definition article (g : TagGroup) (file : jsstring) : Article :=
  let path := Path.join [Path.join [contentRoot; group_name g]; file] in
  {| article_title := Path.name (Path.parse file);
     sourcePath := path;
     htmlBody := convert path;
     article_tag := group_name g;
     article_status := run_status |}.

Definition group_articles (g : TagGroup) : list Article :=
  List.map (article g) (group_files g).

(** The Articles of a run, file by file, directory by directory. *)
Definition articles : list Article := flat_map group_articles scanner.

(** Publisher Client: one create-post request for an Article that has
    content, none otherwise. *)
Definition submission (a : Article) : list (PostsMethod * Post * Options) :=
  match htmlBody a with
  | Some (c :: h) =>
      [(posts_add,
        {| title := article_title a; html := c :: h;
           tags := [{| tag_name := article_tag a |}];
           status := article_status a |},
        {| source := js "html" |})]
  | _ => []
  end.

Definition submissions : list (PostsMethod * Post * Options) :=
  flat_map submission articles.

End Pipeline.

End Spec.

(** ** Properties of programs and of traces *)

(** A program that cannot end by throwing, whatever the replies. *)
Fixpoint never_throws {A} (m : Prog A) : Prop :=
  match m with
  | Ret _ => True
  | Throw _ => False
  | Do c k => forall r, never_throws (k r)
  end.

(** A program all of whose calls satisfy [P], whatever the replies. *)
Fixpoint all_calls {A} (P : Call -> Prop) (m : Prog A) : Prop :=
  match m with
  | Ret _ => True
  | Throw _ => True
  | Do c k => P c /\ forall r, all_calls P (k r)
  end.

(** What every call of the script to the Admin API looks like: a create
    request, flagged as HTML, with one tag and the status of the run. *)
Definition create_request (expected : jsstring) (c : Call) : Prop :=
  match c with
  | api_posts m data options =>
      m = posts_add
      /\ options = {| source := js "html" |}
      /\ (exists tag, tags data = [{| tag_name := tag |}])
      /\ status data = expected
  | _ => True
  end.

(** Converting and publishing one file lists no directory. *)
Definition file_call (expected : jsstring) (c : Call) : Prop :=
  match c with
  | fs_readdir_withFileTypes _ => False
  | fs_readdir _ => False
  | _ => create_request expected c
  end.

(** Any call but a listing of a content root. *)
Definition not_root_listing (c : Call) : Prop :=
  match c with
  | fs_readdir_withFileTypes _ => False
  | _ => True
  end.

(** An event other than a listing that failed. *)
Definition no_listing_failure (ev : Event) : Prop :=
  forall e, ~ listing_failed e ev.

(** The line [publishPosts] writes to [console.error] when it gives up. *)
Definition abort_line (e : JsError) : Event :=
  Ev (console_error [text (js "Error processing data directory:"); text (message e)]) tt.

(** A run of the [try] block: either no listing failed, or the failed
    listing is the last call made and its error is thrown. *)
Definition stops_at_failure {S A} (x : Ran S A) : Prop :=
  Forall no_listing_failure (trace x)
  \/ exists t0 ev e,
       trace x = t0 ++ [ev]
       /\ Forall no_listing_failure t0
       /\ listing_failed e ev
       /\ outcome x = inl e.

(** The whole script: no listing failed, or the failed listing is followed
    by the line on [console.error] and nothing else. *)
Definition aborts_at_failure (t : list Event) : Prop :=
  Forall no_listing_failure t
  \/ exists t0 ev e,
       t = t0 ++ [ev; abort_line e]
       /\ Forall no_listing_failure t0
       /\ listing_failed e ev.

(** The TagGroup the script builds from a directory entry and its listing. *)
Definition group_of (tagDir : Dirent) (entries : list jsstring) : Spec.TagGroup :=
  {| Spec.group_name := dirent_name tagDir;
     Spec.group_files := List.filter Spec.is_markdown entries |}.

(** A string of white space only; the empty string is one. *)
Definition blank (s : jsstring) : Prop := Forall (fun c => is_whitespace c = true) s.

(** The command line that converts the file of an Article. *)
Definition command_for (a : Spec.Article) : jsstring :=
  pandoc_command (Spec.sourcePath a).

(** ** Vocabulary of the claims *)

(** A file name with its last three code units, the [.md], removed. *)
Definition strip_md (file : jsstring) : jsstring :=
  take (length file - 3)%nat file.

(** The title the script derives: [.md] is stripped, except from the file
    called just [.md], which has a name and no extension. *)
Definition md_title (file : jsstring) : jsstring :=
  if jsstring_eqb file (js ".md") then file else strip_md file.

(** [request] is the create-post request of a Markdown file of a tag
    directory of the content root, titled by [title_of]. *)
Definition published_from (title_of : jsstring -> jsstring) (L : Layout)
    (process : Process) (request : PostsMethod * Post * Options) : Prop :=
  exists dirents tag entries file stdout,
    ls_withFileTypes L (srcDir process) = inr dirents
    /\ In {| dirent_name := tag; dirent_isDirectory := true |} dirents
    /\ ls L (Path.join [srcDir process; tag]) = inr entries
    /\ In file entries
    /\ endsWith file (js ".md") = true
    /\ pandoc L (pandoc_command (Path.join [Path.join [srcDir process; tag]; file]))
       = inr stdout
    /\ request
       = (posts_add,
          {| title := title_of file; html := trim stdout;
             tags := [{| tag_name := tag |}]; status := post_status process |},
          {| source := js "html" |}).

(** Directory entries are file names: they contain no separator. *)
Definition posix_names (L : Layout) : Prop :=
  forall p entries, ls L p = inr entries ->
    Forall (fun name => Path.CHAR_FORWARD_SLASH ∉ name) entries.

(** The status as the specification has it: the value of [POST_STATUS]
    when the variable is set, [draft] when it is not. *)
Definition status_when_set (process : Process) : jsstring :=
  match env process !! "POST_STATUS"%string with
  | Some v => v
  | None => js "draft"
  end.

(** The tags carried by the requests of a trace. *)
Definition request_tags (t : list Event) : list jsstring :=
  flat_map (fun request => List.map tag_name (tags request.1.2)) (api_requests t).

(** The tags as the specification has them: exactly the names of the
    first-level sub-directories. *)
Definition tags_are_subdirectories (L : Layout) (process : Process)
    (t : list Event) : Prop :=
  forall tag,
    In tag (request_tags t) <-> In tag (Spec.subdirectories L (srcDir process)).

(** The requests of an Article as C10 words them: none when the converter
    fails or prints only white space, else one whose body is the output
    stripped. *)
Definition stripped_submission (L : Layout) (a : Spec.Article)
    : list (PostsMethod * Post * Options) :=
  match pandoc L (command_for a) with
  | inl _ => []
  | inr stdout =>
      if forallb is_whitespace stdout then []
      else [(posts_add,
             {| title := Spec.article_title a; html := trim stdout;
                tags := [{| tag_name := Spec.article_tag a |}];
                status := Spec.article_status a |},
             {| source := js "html" |})]
  end.

(** ** Small worlds to run the script in *)

Definition ENOENT : JsError := {| message := js "ENOENT: no such file or directory" |}.
Definition EACCES : JsError := {| message := js "EACCES: permission denied" |}.
Definition pandoc_failed : JsError := {| message := js "Command failed: pandoc" |}.
Definition unauthorized : JsError := {| message := js "Unauthorized" |}.

(** The first entry of a table under the key [p]. *)
Fixpoint lookup_path {V} (p : jsstring) (table : list (jsstring * V)) : option V :=
  match table with
  | [] => None
  | (q, v) :: table' => if jsstring_eqb p q then Some v else lookup_path p table'
  end.

(** A layout given by tables: the directories with what listing them
    gives, and the files with what converting them gives.  A directory not
    in the table does not exist; a file not in the table fails to convert. *)
Definition layout_of
    (dirs : list (jsstring * (JsError + list Dirent)))
    (outputs : list (jsstring * (JsError + jsstring))) : Layout :=
  {| ls_withFileTypes p :=
       match lookup_path p dirs with
       | Some listing => listing
       | None => inl ENOENT
       end;
     ls p :=
       match lookup_path p dirs with
       | Some (inr entries) => inr (List.map dirent_name entries)
       | Some (inl e) => inl e
       | None => inl ENOENT
       end;
     pandoc command :=
       match lookup_path command
               (List.map (fun '(file, out) => (pandoc_command file, out)) outputs) with
       | Some out => out
       | None => inl pandoc_failed
       end |}.

(** The world of a layout and of an Admin API that answers the [n]-th
    request it receives with [api n]; the state counts the requests. *)
Definition world_of (L : Layout) (api : nat -> Post -> JsError + Response) : World nat :=
  {| respond c n :=
       match c as c' return Reply c' * nat with
       | fs_readdir_withFileTypes p => (ls_withFileTypes L p, n)
       | fs_readdir p => (ls L p, n)
       | execSync command => (pandoc L command, n)
       | api_posts _ data _ => (api n data, Datatypes.S n)
       | console_log _ => (tt, n)
       | console_error _ => (tt, n)
       end |}.

(** An Admin API that creates every post, and one that refuses every
    request. *)
Definition api_accepts (n : nat) (data : Post) : JsError + Response :=
  inr {| json := js "{}" |}.

Definition api_rejects (n : nat) (data : Post) : JsError + Response :=
  inl unauthorized.

Definition directory (name : jsstring) : Dirent :=
  {| dirent_name := name; dirent_isDirectory := true |}.

Definition file (name : jsstring) : Dirent :=
  {| dirent_name := name; dirent_isDirectory := false |}.

(** [tagA/post1.md] and [tagB/post2.md], with a few entries that are not
    posts: a file beside the tag directories, an upper-case extension, a
    nested directory, a file that fails to convert and one that converts to
    white space. *)
Definition blog : Layout :=
  layout_of
    [(js "/app/src", inr [directory (js "tagA"); file (js "README.md"); directory (js "tagB")]);
     (js "/app/src/tagA",
      inr [file (js "post1.md"); file (js "NOTES.MD"); directory (js "nested");
           file (js "broken.md"); file (js "blank.md")]);
     (js "/app/src/tagA/nested", inr [file (js "deep.md")]);
     (js "/app/src/tagB", inr [file (js "post2.md")])]
    [(js "/app/src/tagA/post1.md", inr (js "<p>one</p>
"));
     (js "/app/src/tagA/blank.md", inr (js " 
"));
     (js "/app/src/tagA/nested/deep.md", inr (js "<p>deep</p>"));
     (js "/app/src/tagB/post2.md", inr (js "<p>two</p>
"))].

(** A tag directory whose only entry is the file called [.md]. *)
Definition dotfile_blog : Layout :=
  layout_of
    [(js "/app/src", inr [directory (js "tagA")]);
     (js "/app/src/tagA", inr [file (js ".md")])]
    [(js "/app/src/tagA/.md", inr (js "<p>x</p>"))].

(** The same blog with [tagA] unreadable. *)
Definition locked_blog : Layout :=
  layout_of
    [(js "/app/src", inr [directory (js "tagA"); directory (js "tagB")]);
     (js "/app/src/tagA", inl EACCES);
     (js "/app/src/tagB", inr [file (js "post2.md")])]
    [(js "/app/src/tagB/post2.md", inr (js "<p>two</p>"))].

(** A content root with a tag directory that holds no post. *)
Definition blog_with_empty_tag : Layout :=
  layout_of
    [(js "/app/src", inr [directory (js "tagA"); directory (js "drafts")]);
     (js "/app/src/tagA", inr [file (js "post1.md")]);
     (js "/app/src/drafts", inr [])]
    [(js "/app/src/tagA/post1.md", inr (js "<p>one</p>"))].

(** The script installed in [/app], with its credentials and without
    [POST_STATUS]. *)
Definition script_env : gmap string jsstring :=
  {[ "GHOST_API_URL"%string := js "https://blog.example";
     "GHOST_ADMIN_API_KEY"%string := js "0123:abcd" ]}.

Definition script : Process :=
  {| dirname := js "/app"; cwd := js "/home/user"; env := script_env |}.

(** The script started with [POST_STATUS=] in its environment. *)
Definition script_with_empty_status : Process :=
  {| dirname := js "/app"; cwd := js "/home/user";
     env := <["POST_STATUS"%string := []]> script_env |}.

(** The content root as the specification has it: the value of a
    configuration variable [key]. *)
Definition root_configured_by (key : string) : Prop :=
  forall (process : Process) (contentRoot : jsstring),
    env process !! key = Some contentRoot ->
    scanned_roots (trace (run (world_of blog api_accepts) (main process) 0%nat))
    = [contentRoot].

(** ** Vocabulary of the further properties *)

(** The line [publishPost] writes to the console for a request that was
    answered with [response]. *)
Definition publish_success_line (data : Post) (response : Response) : Event :=
  Ev (console_log
        [text (js "Post " ++ dquote ++ title data ++ dquote
               ++ js " published successfully.");
         text (JSON_stringify response)]) tt.

(** The line [convertMarkdownToHtml] writes to [console.error] when the
    converter failed with [e]. *)
Definition conversion_failure_line (e : JsError) : Event :=
  Ev (console_error [text (js "Error converting file to HTML: " ++ message e)]) tt.

(** A content root without sub-directories: two files, one of them a
    Markdown file. *)
Definition bare_blog : Layout :=
  layout_of
    [(js "/app/src", inr [file (js "README.md"); file (js "notes.txt")])]
    [(js "/app/src/README.md", inr (js "<p>read me</p>"))].

(** A tag directory without Markdown files. *)
Definition blog_without_markdown : Layout :=
  layout_of
    [(js "/app/src", inr [directory (js "misc")]);
     (js "/app/src/misc",
      inr [file (js "a.txt"); file (js "B.MD"); directory (js "sub")])]
    [].


(** A property of the payload of every call to the Admin API. *)
Definition request_property (Q : Post -> Prop) (c : Call) : Prop :=
  match c with
  | api_posts _ data _ => Q data
  | _ => True
  end.



(** A name as a directory listing gives it: not empty, without separator,
    and neither [.] nor [..]. *)
Definition plain (name : jsstring) : Prop :=
  name <> []
  /\ (Path.CHAR_FORWARD_SLASH ∉ name)
  /\ name <> [Path.CHAR_DOT]
  /\ name <> [Path.CHAR_DOT; Path.CHAR_DOT].

(** The absolute path with the given segments: [/s1/s2/.../sn]. *)
Definition absolute_path (segs : list jsstring) : jsstring :=
  Path.sep ++ Path.join_with segs.

(** ** Stepping through a run *)

Ltac run_simpl :=
  cbn [run bind try_catch for_of log log_error settle fst snd outcome final trace
       truthy from_option id] in *.

(** Name the reply and the next state of the first call still to be made. *)
Ltac run_step :=
  match goal with
  | |- context [respond ?w ?c ?s] =>
      lazymatch s with
      | context [respond _ _ _] => fail
      | _ =>
          let reply := fresh "reply" in
          let next := fresh "next" in
          destruct (respond w c s) as [reply next] eqn:?;
          lazymatch c with
          | console_log _ => destruct reply
          | console_error _ => destruct reply
          | _ => idtac
          end
      end
  end; run_simpl.

(** The same, with a case for each kind of reply. *)
Ltac run_case :=
  match goal with
  | |- context [respond ?w ?c ?s] =>
      lazymatch s with
      | context [respond _ _ _] => fail
      | _ =>
          let reply := fresh "reply" in
          let next := fresh "next" in
          destruct (respond w c s) as [reply next] eqn:?; destruct reply
      end
  end; run_simpl.

(** A case for each row of the tables of a layout. *)
Ltac layout_cases H :=
  repeat match type of H with
         | context [jsstring_eqb ?p ?q] => destruct (jsstring_eqb p q) eqn:?
         end.

(** * Proofs *)

(** ** The string and path functions on examples *)

Example parse_post1 : Path.name (Path.parse (js "post1.md")) = js "post1".
Proof. reflexivity. Qed.

Example parse_dotfile : Path.name (Path.parse (js ".md")) = js ".md".
Proof. reflexivity. Qed.

Example parse_two_dots : Path.name (Path.parse (js "a.b.md")) = js "a.b".
Proof. reflexivity. Qed.

Example parse_full :
  Path.parse (js "/home/user/dir/file.txt")
  = {| Path.root := js "/"; Path.dir := js "/home/user/dir";
       Path.base := js "file.txt"; Path.ext := js ".txt";
       Path.name := js "file" |}.
Proof. reflexivity. Qed.

Example resolve_src :
  Path.resolve (js "/") [js "/app"; js "src"] = js "/app/src".
Proof. reflexivity. Qed.

Example join_tag :
  Path.join [js "/app/src"; js "tagA"] = js "/app/src/tagA".
Proof. reflexivity. Qed.

Example join_dots :
  Path.join [js "/foo"; js "bar"; js "baz/asdf"; js "quux"; js ".."]
  = js "/foo/bar/baz/asdf".
Proof. reflexivity. Qed.

Example trim_html : trim (js "  <p>x</p>
") = js "<p>x</p>".
Proof. reflexivity. Qed.

Example endsWith_case : endsWith (js "NOTES.MD") (js ".md") = false.
Proof. reflexivity. Qed.

(** ** Facts about running programs *)

Section RunFacts.

Context {S : Type} (w : World S).

Lemma run_bind {A B} (m : Prog A) (f : A -> Prog B) (s : S) :
  run w (bind m f) s
  = match outcome (run w m s) with
    | inr a =>
        let y := run w (f a) (final (run w m s)) in
        {| outcome := outcome y; final := final y;
           trace := trace (run w m s) ++ trace y |}
    | inl e =>
        {| outcome := inl e; final := final (run w m s);
           trace := trace (run w m s) |}
    end.
Proof.
  revert s. induction m as [a | e | c k IH]; intros s; simpl.
  - by destruct (run w (f a) s).
  - done.
  - rewrite IH. by destruct (outcome (run w (k _) _)).
Qed.

Lemma run_try_catch {A} (m : Prog A) (h : JsError -> Prog A) (s : S) :
  run w (try_catch m h) s
  = match outcome (run w m s) with
    | inr a =>
        {| outcome := inr a; final := final (run w m s);
           trace := trace (run w m s) |}
    | inl e =>
        let y := run w (h e) (final (run w m s)) in
        {| outcome := outcome y; final := final y;
           trace := trace (run w m s) ++ trace y |}
    end.
Proof.
  revert s. induction m as [a | e | c k IH]; intros s; simpl.
  - done.
  - by destruct (run w (h e) s).
  - rewrite IH. by destruct (outcome (run w (k _) _)).
Qed.

End RunFacts.

Section ProgFacts.

Context {S : Type} (w : World S).

Lemma never_throws_bind {A B} (m : Prog A) (f : A -> Prog B) :
  never_throws m -> (forall a, never_throws (f a)) -> never_throws (bind m f).
Proof. induction m; simpl; auto; tauto. Qed.

Lemma never_throws_try_catch {A} (m : Prog A) (h : JsError -> Prog A) :
  (forall e, never_throws (h e)) -> never_throws (try_catch m h).
Proof. induction m; simpl; auto. Qed.

Lemma never_throws_for_of {T} (l : list T) (body : T -> Prog unit) :
  (forall x, never_throws (body x)) -> never_throws (for_of l body).
Proof.
  intros Hbody. induction l as [| x l IH]; simpl; [done |].
  apply never_throws_bind; auto.
Qed.

Lemma never_throws_run {A} (m : Prog A) (s : S) :
  never_throws m -> exists a, outcome (run w m s) = inr a.
Proof.
  revert s. induction m as [a | e | c k IH]; simpl; intros s Hm.
  - by exists a.
  - done.
  - apply IH, Hm.
Qed.

Lemma all_calls_impl {A} (P Q : Call -> Prop) (m : Prog A) :
  (forall c, P c -> Q c) -> all_calls P m -> all_calls Q m.
Proof.
  intros HPQ. induction m as [a | e | c k IH]; simpl; auto.
  intros [Hc Hk]. split; auto.
Qed.

Lemma all_calls_bind {A B} P (m : Prog A) (f : A -> Prog B) :
  all_calls P m -> (forall a, all_calls P (f a)) -> all_calls P (bind m f).
Proof.
  induction m as [a | e | c k IH]; simpl; auto.
  intros [Hc Hk] Hf. split; auto.
Qed.

Lemma all_calls_try_catch {A} P (m : Prog A) (h : JsError -> Prog A) :
  all_calls P m -> (forall e, all_calls P (h e)) -> all_calls P (try_catch m h).
Proof.
  induction m as [a | e | c k IH]; simpl; auto.
  intros [Hc Hk] Hh. split; auto.
Qed.

Lemma all_calls_for_of {T} P (l : list T) (body : T -> Prog unit) :
  (forall x, all_calls P (body x)) -> all_calls P (for_of l body).
Proof.
  intros Hbody. induction l as [| x l IH]; simpl; [done |].
  apply all_calls_bind; auto.
Qed.

Lemma all_calls_trace {A} P (m : Prog A) (s : S) :
  all_calls P m -> Forall (fun ev => P (call_of ev)) (trace (run w m s)).
Proof.
  revert s. induction m as [a | e | c k IH]; simpl; intros s Hm.
  - constructor.
  - constructor.
  - destruct Hm as [Hc Hk]. constructor; [exact Hc | apply IH, Hk].
Qed.

End ProgFacts.

Section Static.

Context {S : Type} (w : World S) (L : Layout) (Hw : serves w L).
Variable process : Process.

Lemma served_pandoc c s r s' : respond w (execSync c) s = (r, s') -> r = pandoc L c.
Proof. intros E. destruct Hw as (_ & _ & H). rewrite <- (H c s), E. done. Qed.

Lemma served_ls p s r s' : respond w (fs_readdir p) s = (r, s') -> r = ls L p.
Proof. intros E. destruct Hw as (_ & H & _). rewrite <- (H p s), E. done. Qed.

Lemma served_ls_withFileTypes p s r s' :
  respond w (fs_readdir_withFileTypes p) s = (r, s') -> r = ls_withFileTypes L p.
Proof. intros E. destruct Hw as (H & _ & _). rewrite <- (H p s), E. done. Qed.

(** What [convertMarkdownToHtml] resolves with: the trimmed output, or
    [null] when the converter fails. *)
Lemma run_convert_static filePath s :
  outcome (run w (convertMarkdownToHtml filePath) s) = inr (Spec.convert L filePath).
Proof.
  unfold convertMarkdownToHtml, Spec.convert. run_simpl. run_step.
  match goal with |- context [respond w (execSync ?c) ?s] =>
    destruct (respond w (execSync c) s) as [out s'] eqn:E end.
  apply served_pandoc in E. rewrite <- E. run_simpl.
  destruct out as [e | stdout]; run_simpl; done.
Qed.

Lemma run_file_static status g file s :
  let x := run w (publishPosts_file (Spec.group_name g)
                    (Path.join [srcDir process; Spec.group_name g]) status file) s in
  outcome x = inr tt
  /\ api_requests (trace x) = Spec.submission (Spec.article L (srcDir process) status g file)
  /\ conversions (trace x)
     = [pandoc_command (Spec.sourcePath (Spec.article L (srcDir process) status g file))]
  /\ scanned_groups (trace x) = [].
Proof.
  unfold publishPosts_file, convertMarkdownToHtml, publishPost, Spec.submission,
    Spec.article, Spec.convert.
  cbn [Spec.htmlBody Spec.sourcePath Spec.article_title Spec.article_tag
       Spec.article_status].
  run_simpl. run_step.
  match goal with |- context [respond w (execSync ?c) ?s] =>
    destruct (respond w (execSync c) s) as [out s'] eqn:E end.
  apply served_pandoc in E. rewrite <- E. run_simpl.
  destruct out as [e | stdout]; run_simpl.
  - run_step. done.
  - destruct (trim stdout) as [| c h]; run_simpl; [done |].
    run_step. run_step.
    match goal with r : Reply (api_posts _ _ _) |- _ => destruct r end;
      run_simpl; run_step; done.
Qed.

Lemma run_files_static status g files s :
  let x := run w (for_of files
                    (publishPosts_file (Spec.group_name g)
                       (Path.join [srcDir process; Spec.group_name g]) status)) s in
  let arts := List.map (Spec.article L (srcDir process) status g) files in
  outcome x = inr tt
  /\ api_requests (trace x) = flat_map Spec.submission arts
  /\ conversions (trace x) = List.map (fun a => pandoc_command (Spec.sourcePath a)) arts
  /\ scanned_groups (trace x) = [].
Proof.
  revert s. induction files as [| file files IH]; intros s; [done |].
  cbn [for_of List.map flat_map]. rewrite run_bind.
  destruct (run_file_static status g file s) as (Ho & Hr & Hc & Hg).
  destruct (IH (final (run w (publishPosts_file (Spec.group_name g)
                                (Path.join [srcDir process; Spec.group_name g]) status file) s)))
    as (Ho' & Hr' & Hc' & Hg').
  rewrite Ho. cbn [outcome trace].
  unfold api_requests, conversions, scanned_groups in *.
  rewrite !omap_app, Hr, Hc, Hg, Hr', Hc', Hg'. done.
Qed.

Lemma run_dir_static status tagDir s :
  let x := run w (publishPosts_dir process status tagDir) s in
  scanned_groups (trace x) = [Path.join [srcDir process; dirent_name tagDir]]
  /\ match ls L (Path.join [srcDir process; dirent_name tagDir]) with
     | inl e =>
         outcome x = inl e /\ api_requests (trace x) = [] /\ conversions (trace x) = []
     | inr entries =>
         let arts := Spec.group_articles L (srcDir process) status (group_of tagDir entries) in
         outcome x = inr tt
         /\ api_requests (trace x) = flat_map Spec.submission arts
         /\ conversions (trace x)
            = List.map (fun a => pandoc_command (Spec.sourcePath a)) arts
     end.
Proof.
  unfold publishPosts_dir. run_simpl.
  match goal with |- context [respond w (fs_readdir ?p) ?s] =>
    destruct (respond w (fs_readdir p) s) as [listing s'] eqn:E end.
  apply served_ls in E. rewrite <- E. run_simpl.
  destruct listing as [e | entries]; run_simpl; [done |].
  run_step.
  destruct (run_files_static status (group_of tagDir entries)
              (List.filter Spec.is_markdown entries) next) as (Ho & Hr & Hc & Hg).
  cbn [group_of Spec.group_name] in *.
  unfold Spec.group_articles, Spec.is_markdown in *.
  cbn [Spec.group_files Spec.group_name group_of].
  unfold api_requests, conversions, scanned_groups in *.
  cbn [omap list_omap]. cbn [plain_listing_of request_of command_of call_of].
  rewrite Ho, Hr, Hc, Hg. done.
Qed.

Lemma run_dirs_static status dirs s :
  let x := run w (for_of dirs (publishPosts_dir process status)) s in
  let arts := flat_map (Spec.group_articles L (srcDir process) status)
                (Spec.scan_groups L (srcDir process) (List.map dirent_name dirs)) in
  api_requests (trace x) = flat_map Spec.submission arts
  /\ conversions (trace x) = List.map (fun a => pandoc_command (Spec.sourcePath a)) arts
  /\ scanned_groups (trace x)
     = List.map (fun d => Path.join [srcDir process; d])
         (Spec.listed L (srcDir process) (List.map dirent_name dirs)).
Proof.
  revert s. induction dirs as [| tagDir dirs IH]; intros s; [done |].
  cbn [for_of List.map Spec.scan_groups Spec.listed]. rewrite run_bind.
  destruct (run_dir_static status tagDir s) as (Hg & Hd).
  destruct (ls L (Path.join [srcDir process; dirent_name tagDir])) as [e | entries].
  - destruct Hd as (Ho & Hr & Hc). rewrite Ho. cbn [outcome trace]. done.
  - destruct Hd as (Ho & Hr & Hc). rewrite Ho. cbn [outcome trace flat_map List.map].
    destruct (IH (final (run w (publishPosts_dir process status tagDir) s)))
      as (Hr' & Hc' & Hg').
    unfold api_requests, conversions, scanned_groups in *.
    rewrite !omap_app, Hr, Hc, Hg, Hr', Hc', Hg'.
    rewrite flat_map_app, List.map_app. done.
Qed.

Lemma run_publishPosts_static s :
  let x := run w (publishPosts process) s in
  let arts := Spec.articles L (srcDir process) (post_status process) in
  api_requests (trace x) = Spec.submissions L (srcDir process) (post_status process)
  /\ conversions (trace x) = List.map (fun a => pandoc_command (Spec.sourcePath a)) arts
  /\ scanned_groups (trace x)
     = List.map (fun d => Path.join [srcDir process; d])
         (Spec.listed L (srcDir process) (Spec.subdirectories L (srcDir process))).
Proof.
  unfold publishPosts, Spec.submissions, Spec.articles, Spec.scanner,
    Spec.subdirectories.
  run_simpl. run_step.
  match goal with |- context [respond w (fs_readdir_withFileTypes ?p) ?s] =>
    destruct (respond w (fs_readdir_withFileTypes p) s) as [listing s'] eqn:E end.
  apply served_ls_withFileTypes in E. rewrite <- E. run_simpl.
  destruct listing as [e | tagDirs]; run_simpl.
  - run_step. done.
  - run_step. rewrite run_try_catch.
    destruct (run_dirs_static (post_status process)
                (List.filter dirent_isDirectory tagDirs) next0) as (Hr & Hc & Hg).
    unfold api_requests, conversions, scanned_groups in *.
    destruct (outcome (run w (for_of _ _) next0)) as [e | []];
      run_simpl; [run_step |];
      cbn [omap list_omap request_of command_of plain_listing_of call_of];
      rewrite ?omap_app, Hr, Hc, Hg;
      cbn [omap list_omap request_of command_of plain_listing_of call_of];
      rewrite ?app_nil_r; done.
Qed.

Lemma run_main_static s :
  let x := run w (main process) s in
  let arts := Spec.articles L (srcDir process) (post_status process) in
  api_requests (trace x) = Spec.submissions L (srcDir process) (post_status process)
  /\ conversions (trace x) = List.map (fun a => pandoc_command (Spec.sourcePath a)) arts
  /\ scanned_groups (trace x)
     = List.map (fun d => Path.join [srcDir process; d])
         (Spec.listed L (srcDir process) (Spec.subdirectories L (srcDir process))).
Proof.
  unfold main, logEnvironmentVariables. run_simpl. run_step. run_step.
  apply run_publishPosts_static.
Qed.

(** Once the content root is listed, the script writes the tags it is
    about to walk to the console. *)
Lemma main_logs_tag_directories s dirents :
  ls_withFileTypes L (srcDir process) = inr dirents ->
  In (Ev (console_log [text (js "Tag Directories:");
                       array (Spec.subdirectories L (srcDir process))]) tt)
    (trace (run w (main process) s)).
Proof.
  intros Hroot. unfold main, logEnvironmentVariables, publishPosts, Spec.subdirectories.
  rewrite Hroot. run_simpl. run_step. run_step. run_step.
  match goal with |- context [respond w (fs_readdir_withFileTypes ?p) ?s] =>
    destruct (respond w (fs_readdir_withFileTypes p) s) as [listing s'] eqn:E end.
  apply served_ls_withFileTypes in E. rewrite Hroot in E. subst listing.
  run_simpl. run_step. do 4 right. by left.
Qed.

End Static.

(** ** Facts that hold against every world *)

Section AnyWorld.

Context {S : Type} (w : World S).
Variable process : Process.

Lemma publishPost_never_throws title html tag status :
  never_throws (publishPost title html tag status).
Proof. intros [] [e | r] []; exact I. Qed.

Lemma convertMarkdownToHtml_never_throws filePath :
  never_throws (convertMarkdownToHtml filePath).
Proof. intros [] [e | r]; [intros [] |]; exact I. Qed.

Lemma publishPosts_never_throws : never_throws (publishPosts process).
Proof.
  unfold publishPosts. apply never_throws_bind; [intros []; exact I |].
  intros _. apply never_throws_try_catch. intros e []. exact I.
Qed.

Lemma main_never_throws : never_throws (main process).
Proof.
  unfold main. apply never_throws_bind; [intros [] []; exact I |].
  intros _. apply publishPosts_never_throws.
Qed.

Lemma main_fulfilled s : outcome (run w (main process) s) = inr tt.
Proof.
  destruct (never_throws_run w (main process) s main_never_throws) as [[] H].
  exact H.
Qed.

Lemma file_call_create_request expected c :
  file_call expected c -> create_request expected c.
Proof. by destruct c. Qed.

Lemma publishPosts_file_calls tag tagPath st mdFile :
  all_calls (file_call st) (publishPosts_file tag tagPath st mdFile).
Proof.
  unfold publishPosts_file, convertMarkdownToHtml.
  cbn [bind try_catch log log_error settle all_calls create_request file_call].
  split; [exact I |]. intros ?. split; [exact I |].
  intros [err | stdout];
    cbn [bind try_catch log log_error settle all_calls create_request file_call].
  - split; [exact I |]. intros ?. exact I.
  - destruct (trim stdout) as [| c h];
      cbn [truthy publishPost bind try_catch log log_error settle all_calls
           create_request file_call tags status];
      [exact I |].
    split; [exact I |]. intros ?. split; [by eauto |].
    intros [err | resp];
      cbn [bind try_catch log log_error settle all_calls create_request file_call];
      (split; [exact I |]); intros ?; exact I.
Qed.

Lemma publishPosts_file_requests tag tagPath st mdFile :
  all_calls (create_request st) (publishPosts_file tag tagPath st mdFile).
Proof.
  eapply all_calls_impl; [apply file_call_create_request |].
  apply publishPosts_file_calls.
Qed.

Lemma publishPosts_requests :
  all_calls (create_request (post_status process)) (publishPosts process).
Proof.
  unfold publishPosts.
  cbn [bind try_catch log log_error settle all_calls create_request].
  split; [exact I |]. intros ?. split; [exact I |].
  intros [err | tagDirs]; cbn [bind try_catch log log_error settle all_calls create_request].
  - split; [exact I |]. intros ?. exact I.
  - split; [exact I |]. intros ?.
    apply all_calls_try_catch; [| intros e; split; [exact I | intros ?; exact I]].
    apply all_calls_for_of. intros tagDir. unfold publishPosts_dir.
    cbn [bind try_catch log log_error settle all_calls create_request].
    split; [exact I |].
    intros [err | entries]; cbn [bind try_catch log log_error settle all_calls create_request];
      [exact I |].
    split; [exact I |]. intros ?.
    apply all_calls_for_of. intros mdFile. apply publishPosts_file_requests.
Qed.

Lemma main_requests :
  all_calls (create_request (post_status process)) (main process).
Proof.
  unfold main, logEnvironmentVariables.
  cbn [bind try_catch log log_error settle all_calls create_request].
  split; [exact I |]. intros ?. split; [exact I |]. intros ?.
  apply publishPosts_requests.
Qed.

(** *** Failed requests are reported *)

Lemma failures_logged_app (a b : list Event) :
  failures_logged a -> failures_logged b -> failures_logged (a ++ b).
Proof.
  intros Ha Hb. induction a as [| ev a IH]; [exact Hb |].
  destruct Ha as [Hev Ha]. split; [| by apply IH].
  destruct ev as [[] r]; try exact I.
  destruct r as [e | r]; [| exact I].
  destruct a; [discriminate | exact Hev].
Qed.

Lemma publishPosts_file_logged tag tagPath st mdFile s :
  failures_logged (trace (run w (publishPosts_file tag tagPath st mdFile) s)).
Proof.
  unfold publishPosts_file, convertMarkdownToHtml, publishPost.
  run_simpl. run_case. run_case.
  - run_case. done.
  - destruct (trim _) as [| c h]; run_simpl; [done |].
    run_case. run_case; run_case; done.
Qed.

Lemma for_of_logged {T} (l : list T) (body : T -> Prog unit) :
  (forall x s, failures_logged (trace (run w (body x) s))) ->
  forall s, failures_logged (trace (run w (for_of l body) s)).
Proof.
  intros Hbody. induction l as [| x l IH]; intros s; [exact I |].
  cbn [for_of]. rewrite run_bind.
  destruct (outcome (run w (body x) s)); cbn [trace]; [apply Hbody |].
  apply failures_logged_app; [apply Hbody | apply IH].
Qed.

Lemma publishPosts_dir_logged st tagDir s :
  failures_logged (trace (run w (publishPosts_dir process st tagDir) s)).
Proof.
  unfold publishPosts_dir. run_simpl. run_case; [done |].
  run_case. repeat split.
  apply for_of_logged. intros mdFile s'. apply publishPosts_file_logged.
Qed.

Lemma publishPosts_logged s :
  failures_logged (trace (run w (publishPosts process) s)).
Proof.
  unfold publishPosts. run_simpl. run_case. run_case.
  - run_case. done.
  - run_case. repeat split. rewrite run_try_catch.
    match goal with |- context [run w (for_of ?l ?body) ?s'] =>
      pose proof (for_of_logged l body (publishPosts_dir_logged (post_status process)) s')
        as Hloop;
      destruct (outcome (run w (for_of l body) s')) as [e | []]
    end; run_simpl; [| exact Hloop].
    run_case. apply failures_logged_app; [exact Hloop | done].
Qed.

Lemma main_logged s : failures_logged (trace (run w (main process) s)).
Proof.
  unfold main, logEnvironmentVariables. run_simpl. run_case. run_case.
  repeat split. apply publishPosts_logged.
Qed.

(** *** A listing that fails ends the run *)

Lemma file_call_no_listing_failure expected ev :
  file_call expected (call_of ev) -> no_listing_failure ev.
Proof. destruct ev as [[] r]; intros H e; solve [destruct H | exact (fun F => F)]. Qed.

Lemma files_no_listing_failure tag tagPath st mdFiles s :
  Forall no_listing_failure
    (trace (run w (for_of mdFiles (publishPosts_file tag tagPath st)) s)).
Proof.
  eapply Forall_impl.
  - apply all_calls_trace, all_calls_for_of. intros mdFile.
    apply publishPosts_file_calls.
  - intros ev. apply file_call_no_listing_failure.
Qed.

Lemma publishPosts_dir_stops st tagDir s :
  stops_at_failure (run w (publishPosts_dir process st tagDir) s).
Proof.
  unfold publishPosts_dir. run_simpl. run_case.
  - right. eexists [], _, _. repeat split; constructor.
  - run_case. left. cbn [trace].
    constructor; [intros e; discriminate |].
    constructor; [intros e F; exact F |].
    apply files_no_listing_failure.
Qed.

Lemma publishPosts_dirs_stops st dirs s :
  stops_at_failure (run w (for_of dirs (publishPosts_dir process st)) s).
Proof.
  revert s. induction dirs as [| tagDir dirs IH]; intros s; [left; constructor |].
  cbn [for_of]. rewrite run_bind.
  pose proof (publishPosts_dir_stops st tagDir s) as Hd.
  destruct (outcome (run w (publishPosts_dir process st tagDir) s)) as [e | []] eqn:Ho.
  - destruct Hd as [Hclean | (t0 & ev & e' & Ht & Hclean & Hev & He)]; [by left |].
    right. exists t0, ev, e'. cbn [trace outcome]. repeat split; congruence.
  - destruct Hd as [Hclean | (t0 & ev & e' & Ht & _ & _ & He)]; [| congruence].
    destruct (IH (final (run w (publishPosts_dir process st tagDir) s)))
      as [Hrest | (t0 & ev & e' & Ht & Hrest & Hev & He)]; cbn [trace outcome].
    + left. by apply Forall_app.
    + right. exists (trace (run w (publishPosts_dir process st tagDir) s) ++ t0), ev, e'.
      rewrite Ht, app_assoc. repeat split; [by apply Forall_app | done | done].
Qed.

Lemma publishPosts_aborts s :
  aborts_at_failure (trace (run w (publishPosts process) s)).
Proof.
  unfold publishPosts. run_simpl. run_case. run_case.
  - run_case. right.
    eexists [Ev (console_log [text (js "Source Directory:"); text (srcDir process)]) tt], _, _.
    repeat split. constructor; [intros e' F; exact F | constructor].
  - run_case. rewrite run_try_catch.
    match goal with |- context [run w (for_of ?l ?body) ?s'] =>
      destruct (publishPosts_dirs_stops (post_status process) l s')
        as [Hclean | (t0 & ev & e' & Ht & Hclean & Hev & He)]
    end.
    + left. cbn [trace].
      constructor; [intros e F; exact F |].
      constructor; [intros e; discriminate |].
      constructor; [intros e F; exact F |].
      match goal with |- context [outcome ?x] => destruct (outcome x) as [e | []] end;
        run_simpl; [| done].
      run_case. apply Forall_app. split; [done |].
      constructor; [intros e' F; exact F | constructor].
    + right. rewrite He. run_simpl. run_case. rewrite Ht.
      eexists (_ :: _ :: _ :: t0), ev, e'. split; [| split; [| exact Hev]].
      * cbn [app]. rewrite <- app_assoc. reflexivity.
      * constructor; [intros e F; exact F |].
        constructor; [intros e; discriminate |].
        constructor; [intros e F; exact F | exact Hclean].
Qed.

Lemma main_aborts s : aborts_at_failure (trace (run w (main process) s)).
Proof.
  unfold main, logEnvironmentVariables. run_simpl. run_case. run_case.
  match goal with |- context [run w (publishPosts process) ?s'] =>
    destruct (publishPosts_aborts s') as [Hclean | (t0 & ev & e & Ht & Hclean & Hev)]
  end.
  - left. constructor; [intros e F; exact F |].
    constructor; [intros e F; exact F | exact Hclean].
  - right. rewrite Ht. eexists (_ :: _ :: t0), ev, e.
    split; [reflexivity |]. split; [| exact Hev].
    constructor; [intros e' F; exact F |].
    constructor; [intros e' F; exact F | exact Hclean].
Qed.

(** *** The content root is listed once *)

Lemma omap_all_None {A B} (f : A -> option B) (l : list A) :
  Forall (fun x => f x = None) l -> omap f l = [].
Proof.
  induction 1 as [| x l Hx _ IH]; [done |].
  cbn [omap list_omap]. by rewrite Hx.
Qed.

Lemma publishPosts_dir_not_root st tagDir :
  all_calls not_root_listing (publishPosts_dir process st tagDir).
Proof.
  unfold publishPosts_dir.
  cbn [bind try_catch log log_error settle all_calls not_root_listing].
  split; [exact I |].
  intros [err | entries];
    cbn [bind try_catch log log_error settle all_calls not_root_listing];
    [exact I |].
  split; [exact I |]. intros ?.
  apply all_calls_for_of. intros mdFile.
  eapply all_calls_impl; [| apply publishPosts_file_calls].
  intros c Hc. by destruct c.
Qed.

Lemma main_scanned_roots s :
  scanned_roots (trace (run w (main process) s)) = [srcDir process].
Proof.
  unfold main, logEnvironmentVariables, publishPosts.
  run_simpl. run_case. run_case. run_case. run_case.
  - run_case. done.
  - run_case. cbn [scanned_roots omap list_omap typed_listing_of call_of].
    f_equal. apply omap_all_None.
    eapply Forall_impl.
    + apply all_calls_trace, all_calls_try_catch.
      * apply all_calls_for_of, publishPosts_dir_not_root.
      * intros e. split; [exact I | intros ?; exact I].
    + intros [c r] Hc. by destruct c.
Qed.

End AnyWorld.

(** ** Facts about strings and paths *)

Lemma endsWith_app (stem suffix : jsstring) : endsWith (stem ++ suffix) suffix = true.
Proof.
  unfold endsWith, jsstring_eqb. rewrite length_app.
  apply andb_true_intro. split.
  - apply Nat.leb_le. lia.
  - apply bool_decide_eq_true.
    replace (length stem + length suffix - length suffix)%nat with (length stem) by lia.
    apply drop_app_length.
Qed.

Lemma endsWith_inv (s suffix : jsstring) :
  endsWith s suffix = true -> exists stem, s = stem ++ suffix.
Proof.
  unfold endsWith, jsstring_eqb. intros H.
  apply andb_prop in H as [_ H]. apply bool_decide_eq_true in H.
  exists (take (length s - length suffix)%nat s).
  symmetry. etrans; [| apply (take_drop (length s - length suffix)%nat s)].
  by rewrite H.
Qed.

Lemma scan_char_keeps code i st :
  Path.end_ st <> -1 -> Path.startDot st <> -1 ->
  let st' := Path.scan_char code i st in
  Path.startDot st' = Path.startDot st
  /\ Path.end_ st' = Path.end_ st
  /\ Path.startPart st' = Path.startPart st
  /\ Path.preDotState st' <> 0.
Proof.
  intros Hend Hdot. unfold Path.scan_char.
  destruct (Z.eqb_spec (Path.end_ st) (-1)) as [? | _]; [done |].
  destruct (Z.eqb_spec (Path.startDot st) (-1)) as [? | _]; [done |].
  destruct (N.eqb code Path.CHAR_DOT); cbn [negb].
  - destruct (Z.eqb_spec (Path.preDotState st) 1) as [H1 | H1]; cbn; repeat split; lia.
  - cbn. repeat split; lia.
Qed.

Lemma scan_no_separator start pending st :
  Path.CHAR_FORWARD_SLASH ∉ pending ->
  Path.end_ st <> -1 -> Path.startDot st <> -1 ->
  let st' := Path.scan start pending st in
  Path.startDot st' = Path.startDot st
  /\ Path.end_ st' = Path.end_ st
  /\ Path.startPart st' = Path.startPart st
  /\ (pending <> [] -> Path.preDotState st' <> 0)
  /\ (Path.preDotState st <> 0 -> Path.preDotState st' <> 0).
Proof.
  revert st. induction pending as [| code pending IH]; intros st Hsep Hend Hdot.
  - cbn. repeat split; done.
  - apply not_elem_of_cons in Hsep as [Hcode Hsep].
    cbn [Path.scan].
    destruct (N.eqb_spec code Path.CHAR_FORWARD_SLASH) as [? | _]; [congruence |].
    destruct (scan_char_keeps code (start + Z.of_nat (length pending)) st Hend Hdot)
      as (Hd & He & Hp & Hs).
    destruct (IH (Path.scan_char code (start + Z.of_nat (length pending)) st) Hsep)
      as (Hd' & He' & Hp' & _ & Hs'); [congruence | congruence |].
    repeat split; try congruence; auto.
Qed.

Lemma scan_char_d i :
  Path.scan_char 100 i Path.scan_init
  = {| Path.startDot := -1; Path.startPart := 0; Path.end_ := i + 1;
       Path.matchedSlash := false; Path.preDotState := 0 |}.
Proof. reflexivity. Qed.

Lemma scan_char_m i e :
  e <> -1 ->
  Path.scan_char 109 i
    {| Path.startDot := -1; Path.startPart := 0; Path.end_ := e;
       Path.matchedSlash := false; Path.preDotState := 0 |}
  = {| Path.startDot := -1; Path.startPart := 0; Path.end_ := e;
       Path.matchedSlash := false; Path.preDotState := 0 |}.
Proof.
  intros He. unfold Path.scan_char. cbn [Path.end_].
  destruct (Z.eqb_spec e (-1)); [done | reflexivity].
Qed.

Lemma scan_char_dot i e :
  e <> -1 ->
  Path.scan_char 46 i
    {| Path.startDot := -1; Path.startPart := 0; Path.end_ := e;
       Path.matchedSlash := false; Path.preDotState := 0 |}
  = {| Path.startDot := i; Path.startPart := 0; Path.end_ := e;
       Path.matchedSlash := false; Path.preDotState := 0 |}.
Proof.
  intros He. unfold Path.scan_char. cbn [Path.end_].
  destruct (Z.eqb_spec e (-1)); [done | reflexivity].
Qed.

Lemma scan_md_suffix (pending : jsstring) :
  Path.scan 0 (js "d" ++ js "m" ++ js "." ++ pending) Path.scan_init
  = Path.scan 0 pending
      {| Path.startDot := Z.of_nat (length pending); Path.startPart := 0;
         Path.end_ := Z.of_nat (length pending) + 3;
         Path.matchedSlash := false; Path.preDotState := 0 |}.
Proof.
  change (js "d" ++ js "m" ++ js "." ++ pending)
    with (100%N :: 109%N :: 46%N :: pending).
  cbn [Path.scan N.eqb Path.CHAR_FORWARD_SLASH Pos.eqb].
  rewrite scan_char_d, scan_char_m, scan_char_dot by lia.
  f_equal. cbn [length]. f_equal; lia.
Qed.

Lemma parse_name_md (stem : jsstring) :
  Path.CHAR_FORWARD_SLASH ∉ stem -> stem <> [] ->
  Path.name (Path.parse (stem ++ js ".md")) = stem.
Proof.
  intros Hsep Hstem. destruct stem as [| c stem]; [done |].
  pose proof Hsep as Hc. apply not_elem_of_cons in Hc as [Hc _].
  unfold Path.parse. cbn [app Path.isAbsolute].
  destruct (N.eqb_spec c Path.CHAR_FORWARD_SLASH) as [? | _]; [congruence |].
  change (Z.to_nat 0) with 0%nat. rewrite drop_0.
  change (c :: stem ++ js ".md") with ((c :: stem) ++ js ".md").
  rewrite rev_app_distr.
  change (rev (js ".md")) with (js "d" ++ js "m" ++ js ".").
  rewrite <- !app_assoc, scan_md_suffix, length_rev.
  match goal with |- context [Path.scan 0 ?p ?st] =>
    destruct (scan_no_separator 0 p st) as (Hd & He & Hp & Hs & _)
  end.
  - intros Hin. apply Hsep. apply list_elem_of_In, in_rev.
    by apply list_elem_of_In.
  - cbn. lia.
  - cbn. lia.
  - cbn [Path.startDot Path.end_ Path.startPart] in Hd, He, Hp.
    assert (Hs' : rev (c :: stem) <> []).
    { intros Hnil. apply (f_equal length) in Hnil.
      rewrite length_rev in Hnil. done. }
    apply Hs in Hs'.
    rewrite Hd, He, Hp. cbn [andb orb negb].
    destruct (Z.eqb_spec (Z.of_nat (length (c :: stem)) + 3) (-1)); [lia |].
    destruct (Z.eqb_spec (Z.of_nat (length (c :: stem))) (-1)); [lia |].
    match goal with |- context [Path.preDotState ?x =? 0] =>
      destruct (Z.eqb_spec (Path.preDotState x) 0); [done |]
    end.
    destruct (Z.eqb_spec (Z.of_nat (length (c :: stem)))
                (Z.of_nat (length (c :: stem)) + 3 - 1)); [lia |].
    rewrite andb_false_r. cbn [negb orb andb Z.eqb Path.name].
    unfold slice. change (Z.to_nat 0) with 0%nat.
    rewrite drop_0, Nat2Z.id, Nat.sub_0_r.
    by rewrite take_app_length.
Qed.

(** *** Trimming *)

Lemma trimStart_blank s : trimStart s = [] <-> blank s.
Proof.
  induction s as [| c s IH]; cbn [trimStart].
  - split; [constructor | done].
  - destruct (is_whitespace c) eqn:Hc.
    + rewrite IH. split; [by constructor | by inversion 1].
    + split; [done |]. inversion 1; congruence.
Qed.

Lemma trimStart_head s c t : trimStart s = c :: t -> is_whitespace c = false.
Proof.
  induction s as [| c' s IH]; cbn [trimStart]; [done |].
  destruct (is_whitespace c') eqn:Hc; [exact IH |].
  intros [= <- _]. exact Hc.
Qed.

Lemma trimStart_split s : exists pre, s = pre ++ trimStart s /\ blank pre.
Proof.
  induction s as [| c s (pre & Hs & Hpre)]; cbn [trimStart].
  - exists []. split; [done | constructor].
  - destruct (is_whitespace c) eqn:Hc.
    + exists (c :: pre). split; [cbn; congruence | by constructor].
    + exists []. split; [done | constructor].
Qed.

Lemma blank_rev s : blank (rev s) <-> blank s.
Proof.
  unfold blank. split; intros H.
  - rewrite <- (rev_involutive s). by apply Forall_rev.
  - by apply Forall_rev.
Qed.

Lemma trimEnd_split s : exists post, s = trimEnd s ++ post /\ blank post.
Proof.
  unfold trimEnd. destruct (trimStart_split (rev s)) as (pre & Hs & Hpre).
  exists (rev pre). split; [| by apply blank_rev].
  rewrite <- rev_app_distr, <- Hs. by rewrite rev_involutive.
Qed.

(** [trim] removes a blank prefix and a blank suffix, and what is left
    neither starts nor ends with white space. *)
Lemma trim_split s :
  exists pre post, s = pre ++ trim s ++ post /\ blank pre /\ blank post.
Proof.
  destruct (trimStart_split s) as (pre & Hs & Hpre).
  destruct (trimEnd_split (trimStart s)) as (post & Ht & Hpost).
  exists pre, post. unfold trim. by rewrite <- Ht.
Qed.

Lemma trim_blank s : trim s = [] <-> blank s.
Proof.
  unfold trim, trimEnd. split.
  - intros H. apply (f_equal (@rev N)) in H. rewrite rev_involutive in H.
    cbn [rev] in H. apply trimStart_blank in H.
    apply (proj1 (blank_rev _)) in H.
    destruct (trimStart s) as [| c t] eqn:Ht; [by apply trimStart_blank |].
    apply trimStart_head in Ht. unfold blank in H.
    apply Forall_cons in H as [Hc _]. congruence.
  - intros H. apply trimStart_blank in H. by rewrite H.
Qed.

Lemma trim_head s c t : trim s = c :: t -> is_whitespace c = false.
Proof.
  intros H. destruct (trimEnd_split (trimStart s)) as (post & Ht & _).
  fold (trim s) in Ht. rewrite H in Ht. cbn [app] in Ht.
  by apply trimStart_head in Ht.
Qed.

Lemma trim_last s c t : trim s = t ++ [c] -> is_whitespace c = false.
Proof.
  unfold trim, trimEnd. intros H.
  apply (f_equal (@rev N)) in H. rewrite rev_involutive, rev_app_distr in H.
  cbn [rev app] in H. by apply trimStart_head in H.
Qed.

(** ** Facts about the example worlds *)

Lemma world_of_serves L api : serves (world_of L api) L.
Proof. repeat split. Qed.

(** ** Facts about the pipeline of the specification *)

Section SpecFacts.

Variable L : Layout.
Variable contentRoot : jsstring.
Variable run_status : jsstring.

Lemma in_subdirectories tag :
  In tag (Spec.subdirectories L contentRoot) ->
  exists dirents,
    ls_withFileTypes L contentRoot = inr dirents
    /\ In {| dirent_name := tag; dirent_isDirectory := true |} dirents.
Proof.
  unfold Spec.subdirectories.
  destruct (ls_withFileTypes L contentRoot) as [e | dirents]; [done |].
  intros Hin. exists dirents. split; [done |].
  apply in_map_iff in Hin as ([name isdir] & <- & Hin).
  apply filter_In in Hin as [Hin Hdir]. cbn in Hdir. by subst isdir.
Qed.

Lemma in_scan_groups dirs g :
  In g (Spec.scan_groups L contentRoot dirs) ->
  exists entries,
    In (Spec.group_name g) dirs
    /\ ls L (Path.join [contentRoot; Spec.group_name g]) = inr entries
    /\ Spec.group_files g = List.filter Spec.is_markdown entries.
Proof.
  induction dirs as [| d dirs IH]; cbn [Spec.scan_groups]; [done |].
  destruct (ls L (Path.join [contentRoot; d])) as [e | entries] eqn:Hls; [done |].
  intros [<- | Hin].
  - exists entries. cbn. auto.
  - destruct (IH Hin) as (entries' & Hd & Hls' & Hfiles).
    exists entries'. cbn. auto.
Qed.

Lemma in_articles a :
  In a (Spec.articles L contentRoot run_status) ->
  exists g file,
    In g (Spec.scanner L contentRoot)
    /\ In file (Spec.group_files g)
    /\ a = Spec.article L contentRoot run_status g file.
Proof.
  unfold Spec.articles, Spec.group_articles. intros Hin.
  apply in_flat_map in Hin as (g & Hg & Hin).
  apply in_map_iff in Hin as (file & <- & Hfile).
  by exists g, file.
Qed.

Lemma in_submission a request :
  In request (Spec.submission a) ->
  exists c h,
    Spec.htmlBody a = Some (c :: h)
    /\ request
       = (posts_add,
          {| title := Spec.article_title a; html := c :: h;
             tags := [{| tag_name := Spec.article_tag a |}];
             status := Spec.article_status a |},
          {| source := js "html" |}).
Proof.
  unfold Spec.submission. destruct (Spec.htmlBody a) as [[| c h] |]; try done.
  intros [<- | []]. by exists c, h.
Qed.

Lemma article_converted a :
  In a (Spec.articles L contentRoot run_status) ->
  Spec.htmlBody a = Spec.convert L (Spec.sourcePath a).
Proof. intros Hin. apply in_articles in Hin as (g & file & _ & _ & ->). done. Qed.

End SpecFacts.

(** ** C1: the payload of a create-post request *)

Lemma strip_md_app stem : strip_md (stem ++ js ".md") = stem.
Proof.
  unfold strip_md. rewrite length_app.
  replace (length stem + length (js ".md") - 3)%nat with (length stem)
    by (cbn; lia).
  by rewrite take_app_length.
Qed.

Lemma parse_name_md_title file :
  Path.CHAR_FORWARD_SLASH ∉ file -> endsWith file (js ".md") = true ->
  Path.name (Path.parse file) = md_title file.
Proof.
  intros Hsep Hmd. apply endsWith_inv in Hmd as [stem ->].
  unfold md_title, jsstring_eqb. destruct stem as [| c stem].
  - reflexivity.
  - rewrite bool_decide_eq_false_2.
    + rewrite strip_md_app. apply parse_name_md; [| done].
      intros Hin. apply Hsep. apply elem_of_app. by left.
    + intros Heq. apply (f_equal length) in Heq.
      rewrite length_app in Heq. cbn in Heq. lia.
Qed.

Section C1.

Context {S : Type} (w : World S) (L : Layout).
Variable process : Process.

(** C1 (amended).  In a layout whose directory entries are file names,
    every request the run makes to the Admin API is a create-post request
    with payload [{ title, html, tags: [{ name: tag }], status }] and the
    option [source: 'html'], made for a [.md] entry [file] of a
    sub-directory [tag] of the content root: [tag] is that sub-directory's
    name, [html] is the trimmed output of the converter for that file,
    [status] is the status of the run, and [title] is the file name with
    [.md] stripped, except that the file called just [.md] gets the title
    [.md]. *)
Theorem C1_payload_of_published_file
    (Hnames : posix_names L) (Hw : serves w L) (s : S)
    (request : PostsMethod * Post * Options) :
  In request (api_requests (trace (run w (main process) s))) ->
  published_from md_title L process request.
Proof.
  destruct (run_main_static w L Hw process s) as (Hr & _ & _).
  rewrite Hr. unfold Spec.submissions. intros Hin.
  apply in_flat_map in Hin as (a & Ha & Hin).
  apply in_submission in Hin as (c & h & Hbody & ->).
  apply in_articles in Ha as (g & file & Hg & Hfile & ->).
  apply in_scan_groups in Hg as (entries & Htag & Hls & Hfiles).
  apply in_subdirectories in Htag as (dirents & Hroot & Hdir).
  rewrite Hfiles in Hfile. apply filter_In in Hfile as [Hentry Hmd].
  cbn [Spec.article Spec.htmlBody Spec.article_title Spec.article_tag
       Spec.article_status] in *.
  unfold Spec.convert in Hbody.
  destruct (pandoc L _) as [e | stdout] eqn:Hout; [done |].
  injection Hbody as Hbody.
  exists dirents, (Spec.group_name g), entries, file, stdout.
  repeat split; try done.
  rewrite Hbody, (parse_name_md_title file); [done | | done].
  pose proof (Hnames _ _ Hls) as Hall.
  rewrite List.Forall_forall in Hall. by apply Hall.
Qed.

End C1.

(** C1 as the specification has it, with [.md] stripped from every title,
    fails on the file called [.md]: it is published under the title [.md],
    not under the empty title. *)
Lemma C1_counterexample :
  ~ (forall request,
       In request (api_requests
                     (trace (run (world_of dotfile_blog api_accepts) (main script) 0%nat))) ->
       published_from strip_md dotfile_blog script request).
Proof.
  intros H.
  destruct (H (posts_add,
               {| title := js ".md"; html := js "<p>x</p>";
                  tags := [{| tag_name := js "tagA" |}]; status := js "draft" |},
               {| source := js "html" |}))
    as (dirents & tag & entries & file & stdout & _ & _ & Hls & Hfile & _ & _ & Hreq).
  { vm_compute. by left. }
  injection Hreq as Htitle Hhtml Htag. subst tag.
  vm_compute in Hls. injection Hls as <-.
  destruct Hfile as [<- | []]. vm_compute in Htitle. discriminate.
Qed.

(** The entries of the example blog are file names. *)
Lemma posix_names_blog : posix_names blog.
Proof.
  intros p entries H. unfold blog, layout_of, ls in H.
  cbn [lookup_path] in H. layout_cases H; try discriminate;
    injection H as <-; by apply (bool_decide_unpack _).
Qed.

(** On the example blog, [post1.md] of [tagA] is published as [post1]. *)
Lemma C1_witness :
  posix_names blog
  /\ serves (world_of blog api_accepts) blog
  /\ published_from md_title blog script
       (posts_add,
        {| title := js "post1"; html := js "<p>one</p>";
           tags := [{| tag_name := js "tagA" |}]; status := js "draft" |},
        {| source := js "html" |}).
Proof.
  split; [exact posix_names_blog |].
  split; [apply world_of_serves |].
  apply (C1_payload_of_published_file (world_of blog api_accepts) blog script
           posix_names_blog (world_of_serves blog api_accepts) 0%nat).
  vm_compute. by left.
Defined.

(** ** C2: a failed conversion skips one file *)

Lemma failed_conversion_submits_nothing L contentRoot run_status a e :
  In a (Spec.articles L contentRoot run_status) ->
  pandoc L (command_for a) = inl e ->
  Spec.htmlBody a = None /\ Spec.submission a = [].
Proof.
  intros Ha He. apply article_converted in Ha.
  unfold Spec.submission. rewrite Ha. unfold Spec.convert.
  unfold command_for in He. by rewrite He.
Qed.

Section C2.

Context {S : Type} (w : World S) (L : Layout).
Variable process : Process.

(** C2.  Let the Articles of the run be [before ++ F :: after], and let
    the converter fail on [F].  Then the run still invokes the converter on
    every Article, in order; [convertMarkdownToHtml] resolves with [null]
    for the file of [F], so [F] has no content and no create-post request
    is made for it; and the requests of the run are those of the Articles
    before [F] followed by those of the Articles after [F]. *)
Theorem C2_failed_conversion_skips_only_that_file
    (Hw : serves w L) (s : S)
    (before after : list Spec.Article) (F : Spec.Article) (e : JsError)
    (Hrun : Spec.articles L (srcDir process) (post_status process) = before ++ F :: after)
    (Hfails : pandoc L (command_for F) = inl e) :
  let t := trace (run w (main process) s) in
  conversions t
  = List.map command_for before ++ command_for F :: List.map command_for after
  /\ (forall s', outcome (run w (convertMarkdownToHtml (Spec.sourcePath F)) s') = inr None)
  /\ Spec.htmlBody F = None
  /\ Spec.submission F = []
  /\ api_requests t
     = flat_map Spec.submission before ++ flat_map Spec.submission after.
Proof.
  destruct (run_main_static w L Hw process s) as (Hr & Hc & _).
  destruct (failed_conversion_submits_nothing L (srcDir process)
              (post_status process) F e) as [Hbody Hnone]; [| done |].
  { rewrite Hrun. apply in_or_app. right. by left. }
  cbn zeta. rewrite Hr, Hc. unfold Spec.submissions. rewrite Hrun.
  rewrite List.map_app, flat_map_app. cbn [List.map flat_map]. rewrite Hnone.
  repeat split; try done.
  intros s'. rewrite (run_convert_static w L Hw). unfold Spec.convert.
  unfold command_for in Hfails. by rewrite Hfails.
Qed.

End C2.

(** On the example blog the converter fails on [broken.md], the second
    of four Articles; the other posts are still requested. *)
Lemma C2_witness :
  serves (world_of blog api_accepts) blog
  /\ api_requests (trace (run (world_of blog api_accepts) (main script) 0%nat))
     = [(posts_add,
         {| title := js "post1"; html := js "<p>one</p>";
            tags := [{| tag_name := js "tagA" |}]; status := js "draft" |},
         {| source := js "html" |});
        (posts_add,
         {| title := js "post2"; html := js "<p>two</p>";
            tags := [{| tag_name := js "tagB" |}]; status := js "draft" |},
         {| source := js "html" |})].
Proof.
  split; [apply world_of_serves |].
  pose proof (C2_failed_conversion_skips_only_that_file
                (world_of blog api_accepts) blog script
                (world_of_serves blog api_accepts) 0%nat
                [Spec.article blog (srcDir script) (post_status script)
                   {| Spec.group_name := js "tagA"; Spec.group_files := [] |}
                   (js "post1.md")]
                [Spec.article blog (srcDir script) (post_status script)
                   {| Spec.group_name := js "tagA"; Spec.group_files := [] |}
                   (js "blank.md");
                 Spec.article blog (srcDir script) (post_status script)
                   {| Spec.group_name := js "tagB"; Spec.group_files := [] |}
                   (js "post2.md")]
                (Spec.article blog (srcDir script) (post_status script)
                   {| Spec.group_name := js "tagA"; Spec.group_files := [] |}
                   (js "broken.md"))
                pandoc_failed eq_refl eq_refl) as (_ & _ & _ & _ & Hrequests).
  rewrite Hrequests. reflexivity.
Defined.

(** ** C3: a failed request stops nothing *)

Section C3.

Context {S : Type} (w : World S) (L : Layout).
Variable process : Process.

(** C3.  Whatever the Admin API answers, and so however many requests
    fail: every failed request is followed at once by its line on
    [console.error]; the converter is still run on every Article and the
    requests made are one per Article with content, in order, so nothing
    is retried and nothing after a failure is dropped; and the promise of
    the main function is fulfilled, so the process exits with code 0. *)
Theorem C3_failed_request_is_logged_and_run_continues (Hw : serves w L) (s : S) :
  let x := run w (main process) s in
  let arts := Spec.articles L (srcDir process) (post_status process) in
  failures_logged (trace x)
  /\ conversions (trace x) = List.map command_for arts
  /\ api_requests (trace x) = flat_map Spec.submission arts
  /\ (forall a, (length (Spec.submission a) <= 1)%nat)
  /\ outcome x = inr tt
  /\ exit_code x = 0.
Proof.
  destruct (run_main_static w L Hw process s) as (Hr & Hc & _).
  cbn zeta. repeat split.
  - apply main_logged.
  - exact Hc.
  - exact Hr.
  - intros a. unfold Spec.submission.
    destruct (Spec.htmlBody a) as [[| c h] |]; cbn; lia.
  - apply main_fulfilled.
  - unfold exit_code. by rewrite main_fulfilled.
Qed.

End C3.

(** Against an Admin API that refuses every request, both posts of the
    example blog are still requested, once each, and the exit code is 0. *)
Lemma C3_witness :
  serves (world_of blog api_rejects) blog
  /\ List.map (fun request => title request.1.2)
       (api_requests (trace (run (world_of blog api_rejects) (main script) 0%nat)))
     = [js "post1"; js "post2"]
  /\ exit_code (run (world_of blog api_rejects) (main script) 0%nat) = 0.
Proof.
  split; [apply world_of_serves |].
  destruct (C3_failed_request_is_logged_and_run_continues
              (world_of blog api_rejects) blog script
              (world_of_serves blog api_rejects) 0%nat)
    as (_ & _ & Hrequests & _ & _ & Hexit).
  split; [rewrite Hrequests; reflexivity | exact Hexit].
Defined.

(** ** C4: an unreadable directory ends the run *)

Lemma listing_failed_inj e e' ev :
  listing_failed e ev -> listing_failed e' ev -> e = e'.
Proof. destruct ev as [[] r]; cbn; try done; congruence. Qed.

Section C4.

Context {S : Type} (w : World S).
Variable process : Process.

(** C4.  If listing the content root, or listing a tag directory, fails
    with [e], then that listing is the last call of the run but one: the
    only call after it is the line [Error processing data directory:]
    with the message of [e] on [console.error].  So no further directory
    is listed, no further file is converted and no further request is
    made; and no listing before it had failed. *)
Theorem C4_unreadable_directory_aborts_run (s : S) (ev : Event) (e : JsError) :
  In ev (trace (run w (main process) s)) ->
  listing_failed e ev ->
  exists before,
    trace (run w (main process) s) = before ++ [ev; abort_line e]
    /\ Forall no_listing_failure before.
Proof.
  intros Hin Hev.
  destruct (main_aborts w process s) as [Hclean | (t0 & ev' & e' & Ht & Hclean & Hev')].
  - rewrite List.Forall_forall in Hclean. by destruct (Hclean ev Hin e).
  - rewrite Ht in Hin. apply in_app_or in Hin as [Hin | [<- | [<- | []]]].
    + rewrite List.Forall_forall in Hclean. by destruct (Hclean ev Hin e).
    + rewrite (listing_failed_inj e e' ev' Hev Hev'). by exists t0.
    + destruct Hev.
Qed.

End C4.

(** With [tagA] unreadable, the run ends on the failed listing of [tagA]
    and the line on [console.error]; [tagB] is never listed. *)
Lemma C4_witness :
  exists before,
    trace (run (world_of locked_blog api_accepts) (main script) 0%nat)
    = before ++ [Ev (fs_readdir (js "/app/src/tagA")) (inl EACCES); abort_line EACCES]
    /\ Forall no_listing_failure before.
Proof.
  apply (C4_unreadable_directory_aborts_run (world_of locked_blog api_accepts) script
           0%nat (Ev (fs_readdir (js "/app/src/tagA")) (inl EACCES)) EACCES).
  - vm_compute. do 5 right. by left.
  - reflexivity.
Defined.

(** ** C5: one status for the whole run *)

Lemma requests_of_calls (P : Call -> Prop) (Q : PostsMethod * Post * Options -> Prop)
    (t : list Event) :
  (forall m data options, P (api_posts m data options) -> Q (m, data, options)) ->
  Forall (fun ev => P (call_of ev)) t -> Forall Q (api_requests t).
Proof.
  intros HPQ. induction 1 as [| [c r] t Hc _ IH]; [constructor |].
  unfold api_requests. cbn [omap list_omap request_of call_of].
  destruct c; try exact IH. constructor; [by apply HPQ | exact IH].
Qed.

Section C5.

Context {S : Type} (w : World S).
Variable process : Process.

(** C5 (amended).  Every create-post request of a run carries the same
    status: the value of [POST_STATUS] when that variable is set to a
    non-empty string, and [draft] when it is unset or empty.  The status
    is computed once, before the first directory is listed, and does not
    depend on the file. *)
Theorem C5_one_status_per_run (s : S) :
  Forall (fun request =>
            status request.1.2
            = match env process !! "POST_STATUS"%string with
              | Some (c :: v) => c :: v
              | _ => js "draft"
              end)
    (api_requests (trace (run w (main process) s))).
Proof.
  eapply requests_of_calls; [| apply all_calls_trace, main_requests].
  intros m data options (_ & _ & _ & Hstatus). exact Hstatus.
Qed.

End C5.

(** C5 as the specification has it fails when [POST_STATUS] is set to the
    empty string: the posts are created with status [draft], not with the
    empty status. *)
Lemma C5_counterexample :
  ~ Forall (fun request => status request.1.2 = status_when_set script_with_empty_status)
      (api_requests
         (trace (run (world_of blog api_accepts) (main script_with_empty_status) 0%nat))).
Proof.
  intros H. apply Forall_inv in H. vm_compute in H. discriminate.
Qed.

(** ** C6: what the Scanner selects *)

Lemma map_flat_map {A B C} (f : B -> C) (g : A -> list B) (l : list A) :
  List.map f (flat_map g l) = flat_map (fun x => List.map f (g x)) l.
Proof.
  induction l as [| x l IH]; [done |].
  cbn [flat_map]. by rewrite List.map_app, IH.
Qed.

Lemma flat_map_ext_In {A B} (f g : A -> list B) (l : list A) :
  (forall x, In x l -> f x = g x) -> flat_map f l = flat_map g l.
Proof.
  induction l as [| x l IH]; intros Hfg; [done |].
  cbn [flat_map]. rewrite (Hfg x), IH; [done | | by left].
  intros y Hy. apply Hfg. by right.
Qed.

Section C6.

Context {S : Type} (w : World S) (L : Layout).
Variable process : Process.

(** C6.  A run lists the content root, and after it only sub-directories
    of the content root, each by its own name: nothing below a tag
    directory is listed.  The files it converts are, group by group and in
    listing order, the entries of the group's own listing whose name ends
    with [.md], and nothing else; and a name ends with [.md] exactly when
    its last three code units are those of [.md], in lower case. *)
Theorem C6_scanner_selects_md_entries_of_first_level (Hw : serves w L) (s : S) :
  let t := trace (run w (main process) s) in
  let contentRoot := srcDir process in
  scanned_roots t = [contentRoot]
  /\ scanned_groups t
     = List.map (fun d => Path.join [contentRoot; d])
         (Spec.listed L contentRoot (Spec.subdirectories L contentRoot))
  /\ conversions t
     = flat_map
         (fun g =>
            List.map
              (fun file =>
                 pandoc_command
                   (Path.join [Path.join [contentRoot; Spec.group_name g]; file]))
              (Spec.group_files g))
         (Spec.scanner L contentRoot)
  /\ Forall
       (fun g =>
          exists entries,
            In (Spec.group_name g) (Spec.subdirectories L contentRoot)
            /\ ls L (Path.join [contentRoot; Spec.group_name g]) = inr entries
            /\ Spec.group_files g
               = List.filter (fun entry => endsWith entry (js ".md")) entries)
       (Spec.scanner L contentRoot)
  /\ (forall entry,
        endsWith entry (js ".md") = true
        <-> exists stem, entry = stem ++ [46; 109; 100]%N).
Proof.
  destruct (run_main_static w L Hw process s) as (_ & Hc & Hg).
  cbn zeta. repeat split.
  - apply main_scanned_roots.
  - exact Hg.
  - rewrite Hc. unfold Spec.articles, Spec.group_articles.
    rewrite map_flat_map. apply flat_map_ext_In. intros g _.
    by rewrite List.map_map.
  - apply List.Forall_forall. intros g Hin. by apply in_scan_groups in Hin.
  - apply endsWith_inv.
  - intros [stem ->]. apply (endsWith_app stem (js ".md")).
Qed.

End C6.

(** On the example blog the converter is run on the four [.md] entries of
    [tagA] and [tagB]: not on [README.md] beside them, not on [NOTES.MD],
    not on [nested/deep.md]. *)
Lemma C6_witness :
  serves (world_of blog api_accepts) blog
  /\ conversions (trace (run (world_of blog api_accepts) (main script) 0%nat))
     = List.map pandoc_command
         [js "/app/src/tagA/post1.md"; js "/app/src/tagA/broken.md";
          js "/app/src/tagA/blank.md"; js "/app/src/tagB/post2.md"].
Proof.
  split; [apply world_of_serves |].
  destruct (C6_scanner_selects_md_entries_of_first_level
              (world_of blog api_accepts) blog script
              (world_of_serves blog api_accepts) 0%nat)
    as (_ & _ & Hconversions & _).
  rewrite Hconversions. reflexivity.
Defined.

(** ** C7: the tags of a run *)

Section C7.

Context {S : Type} (w : World S) (L : Layout).
Variable process : Process.

(** C7 (amended).  Every tag a run sends is the name of a first-level
    sub-directory of the content root, used as it is, and the tag of a
    post is the name of the directory its file is in, whatever the file
    contains.  A sub-directory's name is sent as a tag exactly when the run
    reaches that directory and one of its [.md] entries converts to
    non-empty HTML.  The tags the Scanner sets out to walk, which it writes
    to the console, are the names of all first-level sub-directories. *)
Theorem C7_tags_are_names_of_publishing_subdirectories (Hw : serves w L) (s : S) :
  let t := trace (run w (main process) s) in
  let contentRoot := srcDir process in
  let arts := Spec.articles L contentRoot (post_status process) in
  (forall tag, In tag (request_tags t) -> In tag (Spec.subdirectories L contentRoot))
  /\ (forall tag,
        In tag (request_tags t)
        <-> exists a c h,
              In a arts /\ Spec.article_tag a = tag
              /\ Spec.htmlBody a = Some (c :: h))
  /\ (forall a, In a arts -> In (Spec.article_tag a) (Spec.subdirectories L contentRoot))
  /\ (forall dirents,
        ls_withFileTypes L contentRoot = inr dirents ->
        Spec.subdirectories L contentRoot
        = List.map dirent_name (List.filter dirent_isDirectory dirents)
        /\ In (Ev (console_log [text (js "Tag Directories:");
                                array (Spec.subdirectories L contentRoot)]) tt) t).
Proof.
  destruct (run_main_static w L Hw process s) as (Hr & _ & _).
  pose proof (main_logs_tag_directories w L Hw process s) as Hlog.
  cbn zeta. unfold request_tags. rewrite Hr. unfold Spec.submissions.
  assert (Htags : forall a, In a (Spec.articles L (srcDir process) (post_status process)) ->
                            In (Spec.article_tag a) (Spec.subdirectories L (srcDir process))).
  { intros a Ha. apply in_articles in Ha as (g & file & Hg & _ & ->).
    by apply in_scan_groups in Hg as (entries & Hg & _). }
  assert (Hiff : forall tag,
            In tag (flat_map (fun request => List.map tag_name (tags request.1.2))
                      (flat_map Spec.submission
                         (Spec.articles L (srcDir process) (post_status process))))
            <-> exists a c h,
                  In a (Spec.articles L (srcDir process) (post_status process))
                  /\ Spec.article_tag a = tag
                  /\ Spec.htmlBody a = Some (c :: h)).
  { intros tag. split.
    - intros Hin. apply in_flat_map in Hin as (request & Hreq & Hin).
      apply in_flat_map in Hreq as (a & Ha & Hreq).
      apply in_submission in Hreq as (c & h & Hbody & ->).
      destruct Hin as [<- | []]. by exists a, c, h.
    - intros (a & c & h & Ha & <- & Hbody).
      apply in_flat_map. eexists. split.
      + apply in_flat_map. exists a. split; [exact Ha |].
        unfold Spec.submission. rewrite Hbody. by left.
      + by left. }
  split; [| split; [exact Hiff | split; [exact Htags |]]].
  - intros tag Hin. apply Hiff in Hin as (a & _ & _ & Ha & <- & _). by apply Htags.
  - intros dirents Hroot. split; [| by eapply Hlog].
    unfold Spec.subdirectories. by rewrite Hroot.
Qed.

End C7.

(** C7 as the specification has it fails on a sub-directory without
    posts: [drafts] is a first-level sub-directory, and no request carries
    the tag [drafts]. *)
Lemma C7_counterexample :
  ~ tags_are_subdirectories blog_with_empty_tag script
      (trace (run (world_of blog_with_empty_tag api_accepts) (main script) 0%nat)).
Proof.
  intros H. destruct (H (js "drafts")) as [_ Hback].
  assert (Hin : In (js "drafts") (Spec.subdirectories blog_with_empty_tag (srcDir script))).
  { vm_compute. right. by left. }
  apply Hback in Hin. vm_compute in Hin. by destruct Hin as [Hin | []].
Qed.

(** On the example blog the tag [tagB], which a request carries, is a
    sub-directory of the content root. *)
Lemma C7_witness :
  serves (world_of blog api_accepts) blog
  /\ In (js "tagB") (Spec.subdirectories blog (srcDir script)).
Proof.
  split; [apply world_of_serves |].
  destruct (C7_tags_are_names_of_publishing_subdirectories
              (world_of blog api_accepts) blog script
              (world_of_serves blog api_accepts) 0%nat)
    as (Hsub & _ & _).
  apply Hsub. vm_compute. right. by left.
Defined.

(** ** C8: only create requests, and the same ones on every run *)

Section C8.

Context {S : Type} (w : World S) (L : Layout).
Variable process : Process.

(** C8.  Every call the script makes to the Admin API is [posts.add];
    the requests of a run are fixed by the layout alone, whatever state the
    world is in and whatever the Admin API has stored or answers; so a
    second run on the same layout, started in the state the first run left,
    makes the same create-post requests again, and the two runs together
    make every request twice. *)
Theorem C8_only_creates_and_reruns_duplicate (Hw : serves w L) (s : S) :
  let first := run w (main process) s in
  let second := run w (main process) (final first) in
  Forall (fun request => request.1.1 = posts_add)
    (api_requests (trace first ++ trace second))
  /\ (forall s', api_requests (trace (run w (main process) s'))
               = Spec.submissions L (srcDir process) (post_status process))
  /\ api_requests (trace second) = api_requests (trace first)
  /\ api_requests (trace first ++ trace second)
     = api_requests (trace first) ++ api_requests (trace first).
Proof.
  cbn zeta.
  assert (Hfixed : forall s', api_requests (trace (run w (main process) s'))
                              = Spec.submissions L (srcDir process) (post_status process)).
  { intros s'. by destruct (run_main_static w L Hw process s') as (Hr & _). }
  repeat split.
  - unfold api_requests. rewrite omap_app. apply Forall_app. split;
      (eapply requests_of_calls; [| apply all_calls_trace, main_requests]);
      intros m data options (Hm & _); exact Hm.
  - exact Hfixed.
  - by rewrite !Hfixed.
  - unfold api_requests at 1. rewrite omap_app.
    fold (api_requests (trace (run w (main process) s))).
    f_equal. by rewrite !Hfixed.
Qed.

End C8.

(** Two runs on the example blog request [post1] and [post2] twice. *)
Lemma C8_witness :
  serves (world_of blog api_accepts) blog
  /\ List.map (fun request => title request.1.2)
       (api_requests
          (trace (run (world_of blog api_accepts) (main script) 0%nat)
           ++ trace (run (world_of blog api_accepts) (main script)
                       (final (run (world_of blog api_accepts) (main script) 0%nat)))))
     = [js "post1"; js "post2"; js "post1"; js "post2"].
Proof.
  split; [apply world_of_serves |].
  destruct (C8_only_creates_and_reruns_duplicate
              (world_of blog api_accepts) blog script
              (world_of_serves blog api_accepts) 0%nat)
    as (_ & _ & _ & Htwice).
  rewrite Htwice. reflexivity.
Defined.

(** ** C9: where the content root comes from *)

Section C9.

Context {S : Type} (w : World S).
Variable process : Process.

(** C9 (amended).  The directory the run scans is fixed by the location of
    the script: it is [path.resolve(__dirname, 'src')], the directory [src]
    beside the script, for every environment; it is the only directory
    listed as a content root, and no configuration value changes it. *)
Theorem C9_content_root_is_src_beside_script (s : S) :
  scanned_roots (trace (run w (main process) s))
  = [Path.resolve (cwd process) [dirname process; js "src"]].
Proof. apply main_scanned_roots. Qed.

End C9.

(** C9 as the specification has it fails: no configuration variable names
    the directory that is scanned.  With any variable set to [/content],
    the script in [/app] still scans [/app/src]. *)
Lemma C9_counterexample : ~ exists key, root_configured_by key.
Proof.
  intros [key H].
  specialize (H {| dirname := js "/app"; cwd := js "/home/user";
                   env := {[ key := js "/content" ]} |} (js "/content")).
  rewrite main_scanned_roots in H.
  cbn [env] in H. rewrite lookup_singleton_eq in H. specialize (H eq_refl).
  vm_compute in H. discriminate.
Qed.

(** ** C10: the body is the trimmed output, and blank output is skipped *)

Lemma blank_forallb s : forallb is_whitespace s = true <-> blank s.
Proof.
  unfold blank. rewrite forallb_forall, List.Forall_forall. done.
Qed.

Lemma submission_stripped L contentRoot run_status a :
  In a (Spec.articles L contentRoot run_status) ->
  Spec.submission a = stripped_submission L a.
Proof.
  intros Ha. apply article_converted in Ha.
  unfold Spec.submission, stripped_submission, command_for.
  rewrite Ha. unfold Spec.convert.
  destruct (pandoc L _) as [e | stdout]; [done |].
  destruct (forallb is_whitespace stdout) eqn:Hblank.
  - apply blank_forallb, trim_blank in Hblank. by rewrite Hblank.
  - destruct (trim stdout) as [| c h] eqn:Htrim; [| done].
    apply trim_blank, blank_forallb in Htrim. congruence.
Qed.

Section C10.

Context {S : Type} (w : World S) (L : Layout).
Variable process : Process.

(** C10.  The converter is run on every Article; an Article whose
    conversion fails, or succeeds with empty or white-space-only output,
    gets no request, and the run goes on with the next one; any other
    Article gets one request whose body is the output trimmed, which is
    what [convertMarkdownToHtml] resolves with.  Trimming removes a prefix
    and a suffix of white space, and what is left neither starts nor ends
    with white space. *)
Theorem C10_body_is_trimmed_and_blank_output_is_skipped (Hw : serves w L) (s : S) :
  let t := trace (run w (main process) s) in
  let arts := Spec.articles L (srcDir process) (post_status process) in
  conversions t = List.map command_for arts
  /\ api_requests t = flat_map (stripped_submission L) arts
  /\ (forall filePath stdout s',
        pandoc L (pandoc_command filePath) = inr stdout ->
        outcome (run w (convertMarkdownToHtml filePath) s') = inr (Some (trim stdout)))
  /\ (forall stdout,
        exists pre post,
          stdout = pre ++ trim stdout ++ post
          /\ forallb is_whitespace pre = true
          /\ forallb is_whitespace post = true)
  /\ (forall stdout c rest, trim stdout = c :: rest -> is_whitespace c = false)
  /\ (forall stdout c rest, trim stdout = rest ++ [c] -> is_whitespace c = false).
Proof.
  destruct (run_main_static w L Hw process s) as (Hr & Hc & _).
  cbn zeta. repeat split.
  - exact Hc.
  - rewrite Hr. unfold Spec.submissions. apply flat_map_ext_In.
    intros a Ha. by eapply submission_stripped.
  - intros filePath stdout s' Hout. rewrite (run_convert_static w L Hw).
    unfold Spec.convert. by rewrite Hout.
  - intros stdout. destruct (trim_split stdout) as (pre & post & Hs & Hpre & Hpost).
    exists pre, post. by rewrite !blank_forallb.
  - intros stdout c rest. apply trim_head.
  - intros stdout c rest. apply trim_last.
Qed.

End C10.

(** On the example blog the bodies are the outputs without their final
    line feed, and [blank.md], whose output is a space and a line feed, is
    not requested. *)
Lemma C10_witness :
  serves (world_of blog api_accepts) blog
  /\ List.map (fun request => html request.1.2)
       (api_requests (trace (run (world_of blog api_accepts) (main script) 0%nat)))
     = [js "<p>one</p>"; js "<p>two</p>"].
Proof.
  split; [apply world_of_serves |].
  destruct (C10_body_is_trimmed_and_blank_output_is_skipped
              (world_of blog api_accepts) blog script
              (world_of_serves blog api_accepts) 0%nat)
    as (_ & Hrequests & _).
  rewrite Hrequests. reflexivity.
Defined.

(** * Further properties of the script *)

(** ** The two functions that call out *)

Section Functions.

Context {S : Type} (w : World S).

(** X1.  In every world, a call of [convertMarkdownToHtml] writes the
    line [Converting file:], runs pandoc once on the given path and never
    rejects: if pandoc fails it writes the message of the error to
    [console.error] and resolves with [null], otherwise it makes no other
    call and resolves with the trimmed output. *)
Theorem X1_convertMarkdownToHtml_one_process_never_rejects (filePath : jsstring) (s : S) :
  let x := run w (convertMarkdownToHtml filePath) s in
  exists reply : JsError + jsstring,
    trace x
    = Ev (console_log [text (js "Converting file:"); text filePath]) tt
      :: Ev (execSync (pandoc_command filePath)) reply
      :: match reply with
         | inl e => [conversion_failure_line e]
         | inr _ => []
         end
    /\ outcome x
       = inr match reply with
             | inl _ => None
             | inr stdout => Some (trim stdout)
             end.
Proof.
  unfold convertMarkdownToHtml. run_simpl. run_case. run_case.
  - run_case. eexists (inl _). split; reflexivity.
  - eexists (inr _). split; reflexivity.
Qed.

(** X2.  In every world, a call of [publishPost] writes the line
    [Publishing post:], makes one call [api.posts.add] with the payload
    built from its four arguments and the option [source: 'html'], writes
    one more line, the failure with the message of the error on
    [console.error] or the success with the serialised response on
    [console.log], and is fulfilled either way: nothing is retried and
    nothing is thrown to the caller. *)
Theorem X2_publishPost_one_request_never_rejects
    (postTitle body tag postStatus : jsstring) (s : S) :
  let x := run w (publishPost postTitle body tag postStatus) s in
  let data := {| title := postTitle; html := body;
                 tags := [{| tag_name := tag |}]; status := postStatus |} in
  exists reply : JsError + Response,
    trace x
    = [Ev (console_log
             [text (js "Publishing post: " ++ dquote ++ postTitle ++ dquote
                    ++ js " with status: " ++ dquote ++ postStatus ++ dquote)]) tt;
       Ev (api_posts posts_add data {| source := js "html" |}) reply;
       match reply with
       | inl e => publish_failure_line data e
       | inr response => publish_success_line data response
       end]
    /\ outcome x = inr tt.
Proof.
  unfold publishPost. run_simpl. run_case. run_case.
  - run_case. eexists (inl _). split; reflexivity.
  - run_case. eexists (inr _). split; reflexivity.
Qed.

End Functions.

(** ** The whole run *)

Section WholeRun.

Context {S : Type} (w : World S).



End WholeRun.

(** ** The content root *)

Lemma resolve_src_beside (d c : jsstring) :
  Path.isAbsolute d = true ->
  Path.resolve c [d; js "src"]
  = Path.sep ++ Path.normalizeString (d ++ js "/src/") false.
Proof.
  intros Hd. unfold Path.resolve.
  cbn [rev app Path.resolve_args].
  change (js "src") with [115%N; 114%N; 99%N].
  cbn [Path.resolve_args Path.isAbsolute N.eqb Path.CHAR_FORWARD_SLASH Pos.eqb].
  destruct d as [| c0 d]; [discriminate |].
  cbn [Path.resolve_args]. rewrite Hd. cbn [negb]. reflexivity.
Qed.

(** X5.  When [__dirname] is absolute, as Node makes it, the content root
    is absolute too and does not depend on the directory the script is
    started from. *)
Theorem X5_srcDir_ignores_working_directory (process : Process) (elsewhere : jsstring) :
  Path.isAbsolute (dirname process) = true ->
  srcDir {| dirname := dirname process; cwd := elsewhere; env := env process |}
  = srcDir process
  /\ Path.isAbsolute (srcDir process) = true.
Proof.
  intros Habs. unfold srcDir. cbn [dirname cwd].
  rewrite !resolve_src_beside by done. split; reflexivity.
Qed.

(** ** Nothing to publish *)

Lemma filter_nothing {A} (f : A -> bool) (l : list A) :
  Forall (fun x => f x = false) l -> List.filter f l = [].
Proof.
  induction 1 as [| x l Hx _ IH]; [done |].
  cbn [List.filter]. by rewrite Hx.
Qed.

Section NothingToDo.

Context {S : Type} (w : World S) (L : Layout) (Hw : serves w L).
Variable process : Process.

(** X7.  When the content root has no sub-directory, be it empty or full
    of files, the run is five calls long: the two lines about the
    environment, the line [Source Directory:], the listing of the root and
    the line [Tag Directories:] with an empty array.  Nothing is listed
    further, converted or published, and no error is reported. *)
Theorem X7_content_root_without_subdirectories (s : S) (dirents : list Dirent) :
  ls_withFileTypes L (srcDir process) = inr dirents ->
  List.filter dirent_isDirectory dirents = [] ->
  trace (run w (main process) s)
  = [Ev (console_log [text (js "GHOST_API_URL:");
                      value (env process !! "GHOST_API_URL"%string)]) tt;
     Ev (console_log [text (js "GHOST_ADMIN_API_KEY:");
                      text (if truthy (env process !! "GHOST_ADMIN_API_KEY"%string)
                            then js "Present" else js "Missing")]) tt;
     Ev (console_log [text (js "Source Directory:"); text (srcDir process)]) tt;
     Ev (fs_readdir_withFileTypes (srcDir process)) (inr dirents);
     Ev (console_log [text (js "Tag Directories:"); array []]) tt].
Proof.
  intros Hroot Hnone.
  unfold main, logEnvironmentVariables, publishPosts.
  run_simpl. run_step. run_step. run_step.
  match goal with |- context [respond w (fs_readdir_withFileTypes ?p) ?s] =>
    destruct (respond w (fs_readdir_withFileTypes p) s) as [listing s'] eqn:E end.
  apply (served_ls_withFileTypes w L Hw) in E. rewrite Hroot in E. subst listing.
  run_simpl. rewrite Hnone. run_simpl. run_step. reflexivity.
Qed.

(** X8.  A tag directory none of whose entries ends in [.md] costs its
    listing and the line [Markdown Files in ...:] with an empty array, and
    the loop over the directories goes on: nothing is converted or
    published for it and nothing is thrown. *)
Theorem X8_tag_directory_without_markdown (st : jsstring) (tagDir : Dirent) (s : S)
    (entries : list jsstring) :
  ls L (Path.join [srcDir process; dirent_name tagDir]) = inr entries ->
  Forall (fun entry => endsWith entry (js ".md") = false) entries ->
  let x := run w (publishPosts_dir process st tagDir) s in
  trace x
  = [Ev (fs_readdir (Path.join [srcDir process; dirent_name tagDir])) (inr entries);
     Ev (console_log
           [text (js "Markdown Files in "
                  ++ Path.join [srcDir process; dirent_name tagDir] ++ js ":");
            array []]) tt]
  /\ outcome x = inr tt.
Proof.
  intros Hls Hnone.
  pose proof (filter_nothing _ _ Hnone) as Hfilter.
  unfold publishPosts_dir. run_simpl.
  match goal with |- context [respond w (fs_readdir ?p) ?s] =>
    destruct (respond w (fs_readdir p) s) as [listing s'] eqn:E end.
  apply (served_ls w L Hw) in E. rewrite Hls in E. subst listing.
  run_simpl. rewrite Hfilter. run_simpl. run_step. split; reflexivity.
Qed.

End NothingToDo.

(** ** Titles *)

Lemma scan_char_after_dot code i D E pd :
  D <> -1 -> E <> -1 ->
  exists pd',
    Path.scan_char code i
      {| Path.startDot := D; Path.startPart := 0; Path.end_ := E;
         Path.matchedSlash := false; Path.preDotState := pd |}
    = {| Path.startDot := D; Path.startPart := 0; Path.end_ := E;
         Path.matchedSlash := false; Path.preDotState := pd' |}
    /\ pd' <> 0.
Proof.
  intros HD HE. unfold Path.scan_char.
  cbn [Path.end_ Path.startDot Path.startPart Path.matchedSlash Path.preDotState].
  destruct (Z.eqb_spec E (-1)) as [? | _]; [done |].
  cbn [Path.end_ Path.startDot Path.startPart Path.matchedSlash Path.preDotState].
  destruct (Z.eqb_spec D (-1)) as [? | _]; [done |].
  destruct (N.eqb code Path.CHAR_DOT); cbn [negb].
  - destruct (Z.eqb_spec pd 1) as [-> | Hpd]; cbn [negb].
    + by exists 1.
    + by exists 1.
  - by exists (-1).
Qed.

Lemma scan_after_dot start pending D E pd :
  D <> -1 -> E <> -1 ->
  let st' :=
    Path.scan start pending
      {| Path.startDot := D; Path.startPart := 0; Path.end_ := E;
         Path.matchedSlash := false; Path.preDotState := pd |} in
  Path.startDot st' = D
  /\ Path.end_ st' = E
  /\ (Path.startPart st' = 0
      \/ start + 1 <= Path.startPart st' <= start + Z.of_nat (length pending))
  /\ (Path.preDotState st' <> pd ->
      pending <> []
      /\ (Path.startPart st' = 0
          \/ Path.startPart st' <= start + Z.of_nat (length pending) - 1)).
Proof.
  intros HD HE. revert pd.
  induction pending as [| code pending IH]; intros pd; cbn zeta.
  - cbn. split; [done |]. split; [done |]. split; [by left |].
    intros H. by destruct H.
  - cbn [Path.scan Path.matchedSlash negb].
    destruct (N.eqb code Path.CHAR_FORWARD_SLASH).
    + cbn [Path.startDot Path.end_ Path.startPart Path.preDotState length].
      repeat split; try done; lia.
    + destruct (scan_char_after_dot code (start + Z.of_nat (length pending)) D E pd HD HE)
        as (pd' & -> & Hpd').
      destruct (IH pd') as (Hd & He & Hp & _). cbn zeta in *.
      repeat split; try done.
      * destruct Hp as [Hp | Hp]; [by left | right]. cbn [length]. lia.
      * destruct Hp as [Hp | Hp]; [by left | right]. cbn [length]. lia.
Qed.

Lemma scan_md_suffix_from start (pending : jsstring) :
  0 <= start ->
  Path.scan start (js "d" ++ js "m" ++ js "." ++ pending) Path.scan_init
  = Path.scan start pending
      {| Path.startDot := start + Z.of_nat (length pending); Path.startPart := 0;
         Path.end_ := start + Z.of_nat (length pending) + 3;
         Path.matchedSlash := false; Path.preDotState := 0 |}.
Proof.
  intros Hstart.
  change (js "d" ++ js "m" ++ js "." ++ pending)
    with (100%N :: 109%N :: 46%N :: pending).
  cbn [Path.scan N.eqb Path.CHAR_FORWARD_SLASH Pos.eqb].
  rewrite scan_char_d, scan_char_m, scan_char_dot by lia.
  f_equal. cbn [length]. f_equal; lia.
Qed.

Lemma length_slice (p : jsstring) (a b : Z) :
  0 <= a -> a < b -> b <= Z.of_nat (length p) ->
  length (slice p a b) = Z.to_nat (b - a).
Proof.
  intros Ha Hab Hb. unfold slice. rewrite length_take, length_drop. lia.
Qed.

(** A path that ends in [.md] never parses to an empty name. *)
Lemma parse_name_nonempty (p : jsstring) :
  endsWith p (js ".md") = true -> Path.name (Path.parse p) <> [].
Proof.
  intros Hmd. apply endsWith_inv in Hmd as [q ->].
  destruct q as [| c q1]; [vm_compute; discriminate |].
  unfold Path.parse. cbn [app].
  set (p := c :: q1 ++ js ".md").
  set (start := if Path.isAbsolute p then 1 else 0).
  assert (Hsplit : exists q0, drop (Z.to_nat start) p = q0 ++ js ".md"
                              /\ Z.of_nat (length p) = start + Z.of_nat (length q0) + 3).
  { subst start p. cbn [Path.isAbsolute].
    destruct (N.eqb c Path.CHAR_FORWARD_SLASH).
    - exists q1. split; [reflexivity |].
      cbn [length]. rewrite length_app. cbn. lia.
    - exists (c :: q1). split; [reflexivity |].
      cbn [length]. rewrite length_app. cbn. lia. }
  destruct Hsplit as (q0 & Hdrop & Hlen).
  assert (Hstart : 0 <= start) by (subst start; destruct (Path.isAbsolute p); lia).
  rewrite Hdrop, rev_app_distr.
  change (rev (js ".md")) with (js "d" ++ js "m" ++ js ".").
  rewrite <- !app_assoc, scan_md_suffix_from, length_rev by done.
  match goal with |- context [Path.scan start ?r ?st] =>
    destruct (scan_after_dot start r (start + Z.of_nat (length q0))
                (start + Z.of_nat (length q0) + 3) 0) as (Hd & He & Hsp & Hpd);
      [lia | lia |];
    cbn zeta in Hd, He, Hsp, Hpd;
    set (st' := Path.scan start r st) in *
  end.
  rewrite length_rev in Hsp, Hpd.
  rewrite Hd, He.
  destruct (Z.eqb_spec (start + Z.of_nat (length q0) + 3) (-1)); [lia |].
  cbn [negb].
  set (start' := if (Path.startPart st' =? 0) && Path.isAbsolute p
                 then 1 else Path.startPart st').
  assert (Hbound : 0 <= start' <= start + Z.of_nat (length q0)).
  { subst start' start.
    destruct (Z.eqb_spec (Path.startPart st') 0) as [H0 | H0];
      destruct (Path.isAbsolute p) eqn:Habs; cbn [andb]; lia. }
  assert (Hname : forall b, start' < b -> b <= Z.of_nat (length p) ->
            slice p start' b <> []).
  { intros b H1 H2 Hnil. apply (f_equal length) in Hnil.
    rewrite length_slice in Hnil by lia. cbn [length] in Hnil. lia. }
  match goal with |- context [if ?cond then _ else _] =>
    destruct cond eqn:Hcond
  end; cbn [Path.name].
  - apply Hname; lia.
  - apply orb_false_elim in Hcond as [Hcond _].
    apply orb_false_elim in Hcond as [_ Hcond].
    apply Z.eqb_neq in Hcond. destruct (Hpd Hcond) as [Hq0 Hsp'].
    assert (Hq0len : (0 < length q0)%nat).
    { destruct q0; [| cbn; lia]. by destruct Hq0. }
    apply Hname; [| lia].
    subst start' start.
    destruct (Z.eqb_spec (Path.startPart st') 0) as [H0 | H0];
      destruct (Path.isAbsolute p) eqn:Habs; cbn [andb]; lia.
Qed.


(** ** What every payload satisfies, in every world *)

Lemma all_calls_for_of_In {T} P (l : list T) (body : T -> Prog unit) :
  (forall x, In x l -> all_calls P (body x)) -> all_calls P (for_of l body).
Proof.
  induction l as [| x l IH]; intros Hbody; [exact I |].
  cbn [for_of]. apply all_calls_bind.
  - apply Hbody. by left.
  - intros _. apply IH. intros y Hy. apply Hbody. by right.
Qed.

Lemma publishPosts_file_property (Q : Post -> Prop) tag tagPath st mdFile :
  (forall stdout c h,
     trim stdout = c :: h ->
     Q {| title := Path.name (Path.parse mdFile); html := c :: h;
          tags := [{| tag_name := tag |}]; status := st |}) ->
  all_calls (request_property Q) (publishPosts_file tag tagPath st mdFile).
Proof.
  intros HQ. unfold publishPosts_file, convertMarkdownToHtml.
  cbn [bind try_catch log log_error settle all_calls request_property].
  split; [exact I |]. intros ?. split; [exact I |].
  intros [err | stdout];
    cbn [bind try_catch log log_error settle all_calls request_property].
  - split; [exact I |]. intros ?. exact I.
  - destruct (trim stdout) as [| c h] eqn:Htrim;
      cbn [truthy publishPost bind try_catch log log_error settle all_calls
           request_property from_option id];
      [exact I |].
    split; [exact I |]. intros ?. split; [by eapply HQ |].
    intros [err | resp];
      cbn [bind try_catch log log_error settle all_calls request_property];
      (split; [exact I |]); intros ?; exact I.
Qed.

Lemma main_property (Q : Post -> Prop) (process : Process) :
  (forall tag mdFile stdout c h,
     endsWith mdFile (js ".md") = true ->
     trim stdout = c :: h ->
     Q {| title := Path.name (Path.parse mdFile); html := c :: h;
          tags := [{| tag_name := tag |}]; status := post_status process |}) ->
  all_calls (request_property Q) (main process).
Proof.
  intros HQ. unfold main, logEnvironmentVariables, publishPosts.
  cbn [bind try_catch log log_error settle all_calls request_property].
  split; [exact I |]. intros ?. split; [exact I |]. intros ?.
  split; [exact I |]. intros ?. split; [exact I |].
  intros [err | tagDirs];
    cbn [bind try_catch log log_error settle all_calls request_property].
  - split; [exact I |]. intros ?. exact I.
  - split; [exact I |]. intros ?.
    apply all_calls_try_catch; [| intros e; split; [exact I | intros ?; exact I]].
    apply all_calls_for_of. intros tagDir. unfold publishPosts_dir.
    cbn [bind try_catch log log_error settle all_calls request_property].
    split; [exact I |].
    intros [err | entries];
      cbn [bind try_catch log log_error settle all_calls request_property];
      [exact I |].
    split; [exact I |]. intros ?.
    apply all_calls_for_of_In. intros mdFile Hin.
    apply filter_In in Hin as [_ Hmd].
    apply publishPosts_file_property. intros stdout c h. by apply HQ.
Qed.

Section Payloads.

Context {S : Type} (w : World S).
Variable process : Process.

(** X9.  In every world, the body of every create-post request is not
    empty and neither starts nor ends with white space. *)
Theorem X9_every_body_is_nonempty_and_trimmed (s : S) :
  Forall (fun request =>
            html request.1.2 <> []
            /\ (forall c rest, html request.1.2 = c :: rest -> is_whitespace c = false)
            /\ (forall c rest, html request.1.2 = rest ++ [c] -> is_whitespace c = false))
    (api_requests (trace (run w (main process) s))).
Proof.
  eapply (requests_of_calls
            (request_property
               (fun data =>
                  html data <> []
                  /\ (forall c rest, html data = c :: rest -> is_whitespace c = false)
                  /\ (forall c rest, html data = rest ++ [c] -> is_whitespace c = false))));
    [| apply all_calls_trace, main_property].
  - intros m data options H. exact H.
  - intros tag mdFile stdout c h _ Htrim. cbn [html]. rewrite <- Htrim.
    split; [by rewrite Htrim |]. split.
    + intros c' rest. apply trim_head.
    + intros c' rest. apply trim_last.
Qed.

(** X10.  In every world, the title of every create-post request is not
    empty: the name of a path that ends in [.md] never is. *)
Theorem X10_every_title_is_nonempty (s : S) :
  Forall (fun request => title request.1.2 <> [])
    (api_requests (trace (run w (main process) s))).
Proof.
  eapply (requests_of_calls (request_property (fun data => title data <> [])));
    [| apply all_calls_trace, main_property].
  - intros m data options H. exact H.
  - intros tag mdFile stdout c h Hmd _. cbn [title].
    by apply parse_name_nonempty.
Qed.

End Payloads.


(** ** A request comes right after its own conversion *)




Section Coherence.

Context {S : Type} (w : World S).
Variable process : Process.






End Coherence.



(** ** The paths of a run *)

Lemma split_no_separator seg :
  Path.CHAR_FORWARD_SLASH ∉ seg -> Path.split seg = [seg].
Proof.
  induction seg as [| c seg IH]; intros Hsep; [done |].
  apply not_elem_of_cons in Hsep as [Hc Hsep]. cbn [Path.split].
  destruct (N.eqb_spec c Path.CHAR_FORWARD_SLASH) as [? | _]; [congruence |].
  by rewrite IH.
Qed.

Lemma split_app_sep seg rest :
  Path.CHAR_FORWARD_SLASH ∉ seg ->
  Path.split (seg ++ Path.sep ++ rest) = seg :: Path.split rest.
Proof.
  induction seg as [| c seg IH]; intros Hsep.
  - reflexivity.
  - apply not_elem_of_cons in Hsep as [Hc Hsep]. cbn [app Path.split].
    destruct (N.eqb_spec c Path.CHAR_FORWARD_SLASH) as [? | _]; [congruence |].
    by rewrite IH.
Qed.

Lemma split_join_with segs :
  segs <> [] -> Forall (fun seg => Path.CHAR_FORWARD_SLASH ∉ seg) segs ->
  Path.split (Path.join_with segs) = segs.
Proof.
  intros Hne Hall. induction Hall as [| seg segs Hseg Hall IH]; [done |].
  destruct segs as [| seg' segs].
  - by apply split_no_separator.
  - change (Path.join_with (seg :: seg' :: segs))
      with (seg ++ Path.sep ++ Path.join_with (seg' :: segs)).
    rewrite split_app_sep by done. by rewrite IH.
Qed.

Lemma normalize_step_plain b acc seg :
  plain seg -> Path.normalize_step b acc seg = seg :: acc.
Proof.
  intros (Hne & _ & Hdot & Hdots). unfold Path.normalize_step, jsstring_eqb.
  by rewrite !bool_decide_eq_false_2.
Qed.

Lemma normalize_step_empty b acc : Path.normalize_step b acc [] = acc.
Proof. reflexivity. Qed.

Lemma fold_normalize_step b segs acc :
  Forall (fun seg => seg = [] \/ plain seg) segs ->
  fold_left (Path.normalize_step b) segs acc
  = rev (List.filter (fun seg => negb (jsstring_eqb seg [])) segs) ++ acc.
Proof.
  intros Hall. revert acc. induction Hall as [| seg segs Hseg _ IH]; intros acc; [done |].
  cbn [fold_left List.filter]. destruct Hseg as [-> | Hplain].
  - by rewrite normalize_step_empty, IH.
  - rewrite normalize_step_plain, IH by done.
    unfold jsstring_eqb at 2. rewrite bool_decide_eq_false_2 by apply Hplain.
    cbn [negb rev]. by rewrite <- app_assoc.
Qed.

Lemma normalizeString_absolute b segs :
  segs <> [] -> Forall (fun seg => seg = [] \/ plain seg) segs ->
  Path.normalizeString (absolute_path segs) b
  = Path.join_with (List.filter (fun seg => negb (jsstring_eqb seg [])) segs).
Proof.
  intros Hne Hall. unfold Path.normalizeString, absolute_path.
  change (Path.sep ++ Path.join_with segs)
    with ([] ++ Path.sep ++ Path.join_with segs).
  rewrite (split_app_sep [] (Path.join_with segs)) by apply not_elem_of_nil.
  rewrite split_join_with; [| done |].
  - cbn [fold_left]. rewrite normalize_step_empty, fold_normalize_step by done.
    by rewrite app_nil_r, rev_involutive.
  - eapply Forall_impl; [exact Hall |]. intros seg [-> | H]; [apply not_elem_of_nil | apply H].
Qed.

Lemma filter_plain segs :
  Forall plain segs ->
  List.filter (fun seg => negb (jsstring_eqb seg [])) segs = segs.
Proof.
  induction 1 as [| seg segs Hseg _ IH]; [done |].
  cbn [List.filter]. unfold jsstring_eqb at 1.
  rewrite bool_decide_eq_false_2 by apply Hseg. cbn [negb]. by rewrite IH.
Qed.

Lemma join_with_snoc segs name :
  segs <> [] ->
  Path.join_with (segs ++ [name]) = Path.join_with segs ++ Path.sep ++ name.
Proof.
  intros Hne. induction segs as [| seg segs IH]; [done |].
  destruct segs as [| seg' segs]; [reflexivity |].
  cbn [app Path.join_with] in *. rewrite IH by done. by rewrite <- !app_assoc.
Qed.

Lemma join_with_nonempty segs :
  segs <> [] -> Forall plain segs -> Path.join_with segs <> [].
Proof.
  intros Hne Hall. destruct Hall as [| seg segs (Hseg & _) _]; [done |].
  destruct seg as [| c seg]; [done |]. by destruct segs.
Qed.

Lemma endsWith_sep_plain prefix name :
  plain name -> endsWith (prefix ++ name) Path.sep = false.
Proof.
  intros (Hne & Hsep & _).
  destruct (exists_last Hne) as (init & c & ->).
  unfold endsWith, jsstring_eqb. apply andb_false_intro2.
  apply bool_decide_eq_false. rewrite app_assoc, length_app. cbn [length Path.sep].
  replace (length (prefix ++ init) + 1 - 1)%nat with (length (prefix ++ init)) by lia.
  rewrite drop_app_length. intros [= ->].
  apply Hsep. apply elem_of_app. right. by left.
Qed.

Lemma endsWith_sep_absolute segs :
  segs <> [] -> Forall plain segs -> endsWith (absolute_path segs) Path.sep = false.
Proof.
  intros Hne Hall. destruct (exists_last Hne) as (init & name & ->).
  assert (Hname : plain name).
  { apply Forall_app in Hall as [_ Hall]. by inversion Hall. }
  unfold absolute_path. destruct init as [| seg init].
  - by apply (endsWith_sep_plain Path.sep name).
  - rewrite join_with_snoc by done.
    rewrite !app_assoc. by apply endsWith_sep_plain.
Qed.

Lemma normalize_absolute segs :
  segs <> [] -> Forall plain segs ->
  Path.normalize (absolute_path segs) = absolute_path segs.
Proof.
  intros Hne Hall.
  pose proof (endsWith_sep_absolute segs Hne Hall) as Htrail.
  assert (Hq : Path.normalizeString (absolute_path segs) (negb true)
               = Path.join_with segs).
  { rewrite normalizeString_absolute, filter_plain; [done | done | done |].
    eapply Forall_impl; [exact Hall | by right]. }
  pose proof (join_with_nonempty segs Hne Hall) as Hne'.
  unfold Path.normalize.
  change (absolute_path segs) with (Path.CHAR_FORWARD_SLASH :: Path.join_with segs) at 1.
  cbn iota.
  change (Path.isAbsolute (absolute_path segs)) with true.
  rewrite Hq, Htrail. unfold absolute_path.
  by destruct (Path.join_with segs).
Qed.

Lemma join_absolute segs name :
  segs <> [] -> Forall plain segs -> plain name ->
  Path.join [absolute_path segs; name] = absolute_path (segs ++ [name]).
Proof.
  intros Hne Hall Hname. unfold Path.join. cbn [List.filter].
  change (jsstring_eqb (absolute_path segs) []) with false.
  unfold jsstring_eqb. rewrite bool_decide_eq_false_2 by apply Hname.
  cbn [negb Path.join_with].
  replace (absolute_path segs ++ Path.sep ++ name)
    with (absolute_path (segs ++ [name])).
  2: { unfold absolute_path. rewrite join_with_snoc by done. by rewrite <- !app_assoc. }
  apply normalize_absolute.
  - by destruct segs.
  - apply Forall_app. split; [done | by constructor].
Qed.

Lemma resolve_src_absolute segs c :
  segs <> [] -> Forall plain segs ->
  Path.resolve c [absolute_path segs; js "src"] = absolute_path (segs ++ [js "src"]).
Proof.
  intros Hne Hall. rewrite resolve_src_beside by reflexivity.
  replace (absolute_path segs ++ js "/src/")
    with (absolute_path (segs ++ [js "src"; []])).
  2: { unfold absolute_path.
       change [js "src"; []] with ([js "src"] ++ [[]]).
       rewrite app_assoc, join_with_snoc, join_with_snoc; [| done | by destruct segs].
       rewrite <- !app_assoc. reflexivity. }
  rewrite normalizeString_absolute.
  - rewrite List.filter_app, filter_plain by done. reflexivity.
  - by destruct segs.
  - apply Forall_app. split.
    + eapply Forall_impl; [exact Hall | by right].
    + constructor; [right | constructor; [by left | constructor]].
      repeat split; try discriminate. by apply (bool_decide_unpack _).
Qed.

(** X6.  For a script in the directory [/s1/.../sn] and for a tag
    directory and a file named as a directory listing names them, the
    content root is [/s1/.../sn/src], the directory listed for the tag is
    [/s1/.../sn/src/tag] and the file handed to the converter is
    [/s1/.../sn/src/tag/file]. *)
Theorem X6_paths_of_a_run
    (process : Process) (segs : list jsstring) (tag file : jsstring) :
  dirname process = absolute_path segs ->
  segs <> [] ->
  Forall plain segs ->
  plain tag ->
  plain file ->
  srcDir process = absolute_path (segs ++ [js "src"])
  /\ Path.join [srcDir process; tag] = absolute_path (segs ++ [js "src"; tag])
  /\ Path.join [Path.join [srcDir process; tag]; file]
     = absolute_path (segs ++ [js "src"; tag; file]).
Proof.
  intros Hdir Hne Hall Htag Hfile.
  assert (Hsrc : plain (js "src")).
  { repeat split; try discriminate. by apply (bool_decide_unpack _). }
  assert (Hroot : srcDir process = absolute_path (segs ++ [js "src"])).
  { unfold srcDir. rewrite Hdir. by apply resolve_src_absolute. }
  assert (Hall1 : Forall plain (segs ++ [js "src"])).
  { apply Forall_app. split; [done | by constructor]. }
  assert (Htagdir : Path.join [srcDir process; tag]
                    = absolute_path (segs ++ [js "src"; tag])).
  { rewrite Hroot, join_absolute; [| by destruct segs | done | done].
    by rewrite <- app_assoc. }
  split; [exact Hroot |]. split; [exact Htagdir |].
  rewrite Htagdir, join_absolute; [| by destruct segs | | done].
  - by rewrite <- app_assoc.
  - change [js "src"; tag] with ([js "src"] ++ [tag]). rewrite app_assoc.
    apply Forall_app. split; [done | by constructor].
Qed.

(** ** The theorems on the example worlds *)


(** Started from [/tmp], the example script has the same content root. *)
Lemma X5_witness :
  Path.isAbsolute (dirname script) = true
  /\ srcDir {| dirname := dirname script; cwd := js "/tmp"; env := env script |}
     = srcDir script.
Proof.
  split; [reflexivity |].
  apply (X5_srcDir_ignores_working_directory script (js "/tmp") eq_refl).
Defined.

(** Names as a listing gives them. *)
Lemma plain_examples :
  Forall plain [js "app"; js "tagA"; js "post1.md"].
Proof.
  repeat constructor; try discriminate; by apply (bool_decide_unpack _).
Qed.

(** The example script converts [/app/src/tagA/post1.md]. *)
Lemma X6_witness :
  Forall plain [js "app"; js "tagA"; js "post1.md"]
  /\ Path.join [Path.join [srcDir script; js "tagA"]; js "post1.md"]
     = js "/app/src/tagA/post1.md".
Proof.
  split; [exact plain_examples |].
  pose proof plain_examples as Hplain.
  apply Forall_cons in Hplain as [Happ Hplain].
  apply Forall_cons in Hplain as [Htag Hplain].
  apply Forall_cons in Hplain as [Hfile _].
  assert (Hsegs : [js "app"] <> []) by discriminate.
  assert (Hall : Forall plain [js "app"]) by (by constructor).
  rewrite (proj2 (proj2 (X6_paths_of_a_run script [js "app"] (js "tagA") (js "post1.md")
                           eq_refl Hsegs Hall Htag Hfile))).
  reflexivity.
Defined.

(** A content root with two files and no directory: nothing is converted. *)
Lemma X7_witness :
  serves (world_of bare_blog api_accepts) bare_blog
  /\ conversions (trace (run (world_of bare_blog api_accepts) (main script) 0%nat)) = [].
Proof.
  split; [apply world_of_serves |].
  rewrite (X7_content_root_without_subdirectories (world_of bare_blog api_accepts)
             bare_blog (world_of_serves bare_blog api_accepts) script 0%nat
             [file (js "README.md"); file (js "notes.txt")] eq_refl eq_refl).
  reflexivity.
Defined.

(** A tag directory with a text file, an upper-case [.MD] and a
    sub-directory: the loop body is fulfilled. *)
Lemma X8_witness :
  serves (world_of blog_without_markdown api_accepts) blog_without_markdown
  /\ outcome (run (world_of blog_without_markdown api_accepts)
                (publishPosts_dir script (js "draft") (directory (js "misc"))) 0%nat)
     = inr tt.
Proof.
  split; [apply world_of_serves |].
  apply (X8_tag_directory_without_markdown (world_of blog_without_markdown api_accepts)
           blog_without_markdown (world_of_serves blog_without_markdown api_accepts)
           script (js "draft") (directory (js "misc")) 0%nat
           [js "a.txt"; js "B.MD"; js "sub"] eq_refl).
  repeat constructor.
Defined.
